(** * django-translated-fields: a shallow embedding of [translated_fields/fields.py]

    One logical model attribute ("title") is expanded into one storage
    attribute per language ("title_en", "title_de", ...), and a descriptor
    routes reads and writes to the storage attribute of the active language.

    Conventions of the embedding.
    - A Python [str] is a [string]; its characters are the code points
      U+0000 .. U+00FF.
    - A dict used as a map (instance [__dict__], [**kwargs]) is a [gmap].
    - Process state the code reads or mutates (the active language, the
      class-level [Field.creation_counter], the [ContextVar], the emitted
      warnings) lives in one record [World]; code with effects is written in
      the state-and-exception monad [M]. *)

From Stdlib Require Import ZArith NArith Ascii String.
From stdpp Require Import base option strings list gmap sorting.

Local Open Scope Z_scope.

(** ** Python built-ins used by the module *)

Module Py.

(** Truth value of a [str]-or-[None] result: [None] and the empty string
    are falsy. *)
Definition truthy (o : option string) : bool :=
  match o with
  | None => false
  | Some s => if decide (s = EmptyString) then false else true
  end.

(** [a or b] on such values. *)
Definition or_ (a b : option string) : option string :=
  if truthy a then a else b.

(** [f"{o}"]: [None] is formatted as the text "None". *)
Definition format (o : option string) : string :=
  match o with
  | None => "None"
  | Some s => s
  end.

Definition code (c : ascii) : N := N_of_ascii c.

Definition in_range (lo hi : N) (c : ascii) : bool :=
  ((lo <=? code c) && (code c <=? hi))%N.

(** [str.lower()] on one code point below U+0100: A-Z, and the Latin-1
    capitals U+00C0..U+00DE except the multiplication sign U+00D7.  On
    these code points [str.lower()] works character by character; beyond
    them it does not (U+0130 becomes two code points, the capital sigma
    depends on its neighbours), which is why the embedding stops at
    U+00FF. *)
Definition lower_char (c : ascii) : ascii :=
  if in_range 65 90 c then ascii_of_N (code c + 32)
  else if in_range 192 222 c && negb (code c =? 215)%N
       then ascii_of_N (code c + 32)
  else c.

Fixpoint lower (s : string) : string :=
  match s with
  | EmptyString => EmptyString
  | String c s' => String (lower_char c) (lower s')
  end.

(** The character class [[a-z0-9_]]; the pattern of the source is its
    complement. *)
Definition in_class (c : ascii) : bool :=
  in_range 97 122 c || in_range 48 57 c || (code c =? 95)%N.

(** [re.sub(r"[^a-z0-9_]+", "_", s)].  The scanner walks the string from
    the left; [in_match] tells whether the previous character already
    belongs to the current (greedy) match of the pattern, whose
    replacement has been emitted when the match started. *)
Fixpoint re_sub_scan (in_match : bool) (s : string) : string :=
  match s with
  | EmptyString => EmptyString
  | String c s' =>
      if in_class c then String c (re_sub_scan false s')
      else if in_match then re_sub_scan true s'
      else String "_" (re_sub_scan true s')
  end.

Definition re_sub (s : string) : string := re_sub_scan false s.

End Py.

(** ** Values, exceptions and the state of the process *)

(** The values that occur as field keyword arguments and as instance
    attributes.  [PLazy] is the proxy built by [lazy(verbose_name_fn, str)()]:
    a closure over [verbose_name] and [language_code] whose text is computed
    each time it is rendered.  [PObj] is any other object, given with the
    text [str()] returns for it. *)
Inductive pyval :=
  | PStr (s : string)
  | PLazy (verbose_name : pyval) (language_code : string)
  | PObj (id : N) (text : string).

Inductive exn :=
  | AttributeError (attr : string)
  | IndexError
  | TypeError (msg : string)
  | Exception (id : N).

Inductive result (A : Type) :=
  | Ok (a : A)
  | Raise (e : exn).
Arguments Ok {A} a.
Arguments Raise {A} e.

Record Warning := {
  category : string;
  message : string
}.

(** ** Storage fields and the owning class *)

Module Field.

(** A field, by its class and a constructor call that builds it.  For a
    field this module builds, [args] and [kwargs] are the arguments it was
    called with.  For a prototype handed to [TranslatedField], they are the
    arguments that [deconstruct()] reports for it, which is all this module
    ever reads of a prototype: Django reports positional arguments as
    keywords and leaves out keywords that have their default value, so
    this need not be the call the user wrote. *)
Record t := {
  class_ : string;
  args : list pyval;
  kwargs : gmap string pyval;
  creation_counter : Z;
  _translated_field_language_code : option string
}.

(** [deconstruct()]: the positional and keyword arguments of a constructor
    call that rebuilds the field, as recorded for a prototype. *)
Definition deconstruct (f : t) : list pyval * gmap string pyval :=
  (args f, kwargs f).

Definition set_language_code (language_code : string) (f : t) : t :=
  {| class_ := class_ f; args := args f; kwargs := kwargs f;
     creation_counter := creation_counter f;
     _translated_field_language_code := Some language_code |}.

Definition set_creation_counter (n : Z) (f : t) : t :=
  {| class_ := class_ f; args := args f; kwargs := kwargs f;
     creation_counter := n;
     _translated_field_language_code := _translated_field_language_code f |}.

End Field.

(** The owning class, as far as this module touches it: the calls
    [f.contribute_to_class(cls, attr)] it has received, in order, and the
    names under which a descriptor was installed with [setattr]. *)
Record ModelClass := {
  contributed : list (string * Field.t);
  descriptors : list string
}.

Definition new_class : ModelClass := {| contributed := []; descriptors := [] |}.

Record World := {
  (** [django.utils.translation.get_language()] *)
  get_language : option string;
  (** [settings.LANGUAGES], pairs of a code and a label *)
  LANGUAGES : list (string * string);
  (** the class attribute [Field.creation_counter] *)
  Field_creation_counter : Z;
  (** the value of the context variable [_show_language_code] in the current
      context; [None] while it has no value *)
  _show_language_code : option bool;
  (** what [warnings.warn] has emitted, oldest first *)
  warnings : list Warning;
  (** the model classes, by name; they are mutated in place *)
  classes : gmap string ModelClass
}.

Definition set_Field_creation_counter (n : Z) (w : World) : World :=
  {| get_language := get_language w; LANGUAGES := LANGUAGES w;
     Field_creation_counter := n;
     _show_language_code := _show_language_code w;
     warnings := warnings w; classes := classes w |}.

Definition set_show_language_code (v : option bool) (w : World) : World :=
  {| get_language := get_language w; LANGUAGES := LANGUAGES w;
     Field_creation_counter := Field_creation_counter w;
     _show_language_code := v;
     warnings := warnings w; classes := classes w |}.

Definition add_warning (x : Warning) (w : World) : World :=
  {| get_language := get_language w; LANGUAGES := LANGUAGES w;
     Field_creation_counter := Field_creation_counter w;
     _show_language_code := _show_language_code w;
     warnings := warnings w ++ [x]; classes := classes w |}.

Definition activate (language : option string) (w : World) : World :=
  {| get_language := language; LANGUAGES := LANGUAGES w;
     Field_creation_counter := Field_creation_counter w;
     _show_language_code := _show_language_code w;
     warnings := warnings w; classes := classes w |}.

Definition get_class (cls : string) (w : World) : ModelClass :=
  default new_class (classes w !! cls).

Definition set_class (cls : string) (c : ModelClass) (w : World) : World :=
  {| get_language := get_language w; LANGUAGES := LANGUAGES w;
     Field_creation_counter := Field_creation_counter w;
     _show_language_code := _show_language_code w;
     warnings := warnings w; classes := <[cls := c]> (classes w) |}.

(** Code with effects: a state transformer on [World] that returns a value
    or raises. *)
Definition M (A : Type) : Type := World → result A * World.

Definition ret {A} (a : A) : M A := λ w, (Ok a, w).
Definition raise {A} (e : exn) : M A := λ w, (Raise e, w).
Definition bind {A B} (m : M A) (k : A → M B) : M B :=
  λ w, match m w with
       | (Ok a, w') => k a w'
       | (Raise e, w') => (Raise e, w')
       end.
Definition gets {A} (f : World → A) : M A := λ w, (Ok (f w), w).
Definition modify (f : World → World) : M unit := λ w, (Ok tt, f w).
Definition lift {A} (r : result A) : M A := λ w, (r, w).

#[export] Instance M_ret : MRet M := @ret.
#[export] Instance M_bind : MBind M := λ A B k m, bind m k.
#[export] Instance M_throw : MThrow exn M := @raise.

(** A model instance, seen through [getattr] and [setattr]: its attribute
    dictionary. *)
Abbreviation Instance := (gmap string pyval).

Definition getattr (obj : Instance) (attr : string) : result pyval :=
  match obj !! attr with
  | Some v => Ok v
  | None => Raise (AttributeError attr)
  end.

Definition setattr (obj : Instance) (attr : string) (value : pyval) : Instance :=
  <[attr := value]> obj.

(** ** The display toggle *)

(** [ContextVar.set] returns a token that remembers the previous value;
    [ContextVar.reset] puts that value back; [ContextVar.get(default)]. *)
Record Token := { old_value : option bool }.

Definition ContextVar_set (value : bool) : M Token :=
  λ w, (Ok {| old_value := _show_language_code w |},
        set_show_language_code (Some value) w).

Definition ContextVar_reset (token : Token) : M unit :=
  modify (set_show_language_code (old_value token)).

Definition ContextVar_get (default : bool) (w : World) : bool :=
  from_option id default (_show_language_code w).

(** A generator function with a single [yield] that stands outside of any
    [try] block: the code before the [yield], which leaves the generator's
    local variables, and the code after it. *)
Record Generator (L : Type) := {
  before_yield : M L;
  after_yield : L → M unit
}.
Arguments before_yield {L} _.
Arguments after_yield {L} _ _.

Definition show_language_code (show : bool) : Generator Token :=
  {| before_yield := token ← ContextVar_set show; mret token;
     after_yield := λ token, ContextVar_reset token |}.

(** The [with] statement on the context manager that [@contextmanager]
    makes of such a generator.  [__enter__] runs the generator up to the
    [yield].  When the block ends normally, [__exit__] resumes the generator
    after the [yield].  When the block raises, [__exit__] throws the
    exception into the generator at the [yield]; no handler encloses the
    [yield], so the generator ends there, the code after the [yield] does
    not run, and the exception goes on. *)
Definition with_ {L A} (gen : Generator L) (block : M A) : M A :=
  λ w,
    match before_yield gen w with
    | (Raise e, w1) => (Raise e, w1)
    | (Ok locals, w1) =>
        match block w1 with
        | (Ok a, w2) => (after_yield gen locals ;; mret a) w2
        | (Raise e, w2) => (Raise e, w2)
        end
    end.

(** ** Labels of the generated fields *)

Section Labels.

(** [django.utils.text.capfirst], as a function on the text of its
    argument. *)
Variable capfirst : string → string.

(** The closure [verbose_name_fn], on the text of [verbose_name]. *)
Definition verbose_name_fn (verbose_name language_code : string) (w : World)
  : string :=
  if ContextVar_get false w
  then capfirst verbose_name +:+ " [" +:+ language_code +:+ "]"
  else verbose_name.

(** [str(v)]: rendering a lazy proxy calls its closure now. *)
Fixpoint str (w : World) (v : pyval) : string :=
  match v with
  | PStr s => s
  | PObj _ text => text
  | PLazy verbose_name language_code =>
      verbose_name_fn (str w verbose_name) language_code w
  end.

End Labels.

Definition _verbose_name_maybe_language_code
    (verbose_name : pyval) (language_code : string) : pyval :=
  PLazy verbose_name language_code.

(** ** The attribute namer *)

Definition to_attribute (name : string) (language_code : option string)
    (w : World) : string :=
  let language := Py.or_ language_code (get_language w) in
  Py.re_sub (Py.lower (name +:+ "_" +:+ Py.format language)).

(** ** What the framework does with a storage field *)

(** [django.db.models.Field.__init__]: a new field takes the current value
    of the class-level counter and advances it. *)
Definition Field_init (class_ : string) (args : list pyval)
    (kwargs : gmap string pyval) : M Field.t :=
  n ← gets Field_creation_counter;
  modify (set_Field_creation_counter (n + 1));;
  mret {| Field.class_ := class_; Field.args := args; Field.kwargs := kwargs;
          Field.creation_counter := n;
          Field._translated_field_language_code := None |}.

(** [f.contribute_to_class(cls, attr)] registers [f] on the class. *)
Definition Field_contribute_to_class (f : Field.t) (cls : string)
    (attr : string) : M unit :=
  c ← gets (get_class cls);
  modify (set_class cls {| contributed := contributed c ++ [(attr, f)];
                           descriptors := descriptors c |}).

(** [setattr(cls, name, descriptor)] *)
Definition setattr_cls (cls : string) (name : string) : M unit :=
  c ← gets (get_class cls);
  modify (set_class cls {| contributed := contributed c;
                           descriptors := descriptors c ++ [name] |}).

(** ** The descriptor's data and the accessor factories *)

(** The data attributes of a [TranslatedField]: what an accessor factory
    can read of the descriptor it is given.  [fields] and
    [short_description] are absent until the descriptor is attached. *)
Record TranslatedFieldData := {
  _field : Field.t;
  _specific : gmap string (gmap string pyval);
  languages : list string;
  creation_counter : Z;
  fields : option (list string);
  short_description : option pyval
}.

Definition Getter : Type := World → Instance → result pyval.
Definition Setter : Type := World → Instance → pyval → result Instance.

(** The default getter.  [field.languages[0]] is evaluated only when no
    language is active, and raises [IndexError] on an empty list. *)
Definition translated_attrgetter (name : string) (field : TranslatedFieldData)
    : Getter :=
  λ w self,
    match (if Py.truthy (get_language w) then Ok (get_language w)
           else match languages field !! 0%nat with
                | Some first => Ok (Some first)
                | None => Raise IndexError
                end) with
    | Ok language => getattr self (to_attribute name language w)
    | Raise e => Raise e
    end.

(** The default setter: no language code is passed to [to_attribute]. *)
Definition translated_attrsetter (name : string) (field : TranslatedFieldData)
    : Setter :=
  λ w self value, Ok (setattr self (to_attribute name None w) value).

(** ** Calling a factory with the keywords it declares *)

Inductive kind :=
  | POSITIONAL_ONLY
  | POSITIONAL_OR_KEYWORD
  | VAR_POSITIONAL
  | KEYWORD_ONLY
  | VAR_KEYWORD.

#[export] Instance kind_eq_dec : EqDecision kind.
Proof. solve_decision. Defined.

(** A Python callable: its name, what [inspect.signature(fn).parameters]
    lists for it, and what it computes once its arguments are bound. *)
Record PyFunction (A R : Type) := {
  __name__ : string;
  parameters : list (string * kind);
  body : list A → gmap string A → result R
}.
Arguments __name__ {A R} _.
Arguments parameters {A R} _.
Arguments body {A R} _.

(** [key in params] *)
Definition declares {A R} (fn : PyFunction A R) (key : string) : Prop :=
  key ∈ (parameters fn).*1.

#[export] Instance declares_dec {A R} (fn : PyFunction A R) key :
  Decision (declares fn key).
Proof. unfold declares. apply _. Defined.

(** A keyword can be bound when it names a parameter that may be passed by
    keyword, or when the function collects extra keywords. *)
Definition accepts_keyword {A R} (fn : PyFunction A R) (key : string) : Prop :=
  (key, POSITIONAL_OR_KEYWORD) ∈ parameters fn
  ∨ (key, KEYWORD_ONLY) ∈ parameters fn
  ∨ VAR_KEYWORD ∈ (parameters fn).*2.

#[export] Instance accepts_keyword_dec {A R} (fn : PyFunction A R) key :
  Decision (accepts_keyword fn key).
Proof. unfold accepts_keyword. apply _. Defined.

(** Calling [fn] with positional and keyword arguments: a keyword the
    function cannot bind is a [TypeError] before the body runs. *)
Definition call {A R} (fn : PyFunction A R) (args : list A)
    (kwargs : gmap string A) : result R :=
  if decide (set_Forall (accepts_keyword fn) (dom kwargs))
  then body fn args kwargs
  else Raise (TypeError "got an unexpected keyword argument").

(** [", ".join(keys)] *)
Fixpoint join (sep : string) (l : list string) : string :=
  match l with
  | [] => EmptyString
  | [x] => x
  | x :: rest => x +:+ sep +:+ join sep rest
  end.

Definition sorted (keys : gset string) : list string :=
  merge_sort String.le (elements keys).

Definition warnings_warn (msg category : string) : M unit :=
  modify (add_warning {| category := category; message := msg |}).

(** [kwargs.keys() - params.keys()] *)
Definition unsupported {A R} (fn : PyFunction A R) (kwargs : gmap string A)
    : gset string :=
  dom kwargs ∖ list_to_set (parameters fn).*1.

Definition _optional_keywords {A R} (fn : PyFunction A R) (args : list A)
    (kwargs : gmap string A) : M R :=
  (if decide (unsupported fn kwargs ≠ ∅)
   then warnings_warn
          (__name__ fn +:+ " has unsupported arguments: "
             +:+ join ", " (sorted (unsupported fn kwargs)))
          "DeprecationWarning"
   else mret tt);;
  lift (call fn args (filter (λ kv, declares fn kv.1) kwargs)).

(** ** The descriptor *)

(** What a factory is called with: the logical name and the descriptor. *)
Inductive farg :=
  | AName (name : string)
  | AField (field : TranslatedFieldData).

(** Binding of the arguments of a function declared as [(name, field)]. *)
Definition bind_name_field (args : list farg) (kwargs : gmap string farg)
    : result (string * TranslatedFieldData) :=
  match args, kwargs !! "name", kwargs !! "field" with
  | [AName name; AField field], None, None => Ok (name, field)
  | [AName name], None, Some (AField field) => Ok (name, field)
  | [], Some (AName name), Some (AField field) => Ok (name, field)
  | _, _, _ => Raise (TypeError "arguments do not match (name, field)")
  end.

Definition name_field : list (string * kind) :=
  [("name", POSITIONAL_OR_KEYWORD); ("field", POSITIONAL_OR_KEYWORD)].

(** The two default factories as callables. *)
Definition translated_attrgetter_def : PyFunction farg Getter :=
  {| __name__ := "translated_attrgetter";
     parameters := name_field;
     body := λ args kwargs,
       match bind_name_field args kwargs with
       | Ok (name, field) => Ok (translated_attrgetter name field)
       | Raise e => Raise e
       end |}.

Definition translated_attrsetter_def : PyFunction farg Setter :=
  {| __name__ := "translated_attrsetter";
     parameters := name_field;
     body := λ args kwargs,
       match bind_name_field args kwargs with
       | Ok (name, field) => Ok (translated_attrsetter name field)
       | Raise e => Raise e
       end |}.

Record TranslatedField := {
  data : TranslatedFieldData;
  _attrgetter : PyFunction farg Getter;
  _attrsetter : PyFunction farg Setter;
  _getter : option Getter;
  _setter : option Setter
}.

Definition __init__ (field : Field.t)
    (specific : option (gmap string (gmap string pyval)))
    (languages : option (list string))
    (attrgetter : option (PyFunction farg Getter))
    (attrsetter : option (PyFunction farg Setter)) : M TranslatedField :=
  settings_LANGUAGES ← gets LANGUAGES;
  let languages :=
    match languages with
    | Some (l :: ls) => l :: ls
    | _ => settings_LANGUAGES.*1
    end in
  (* Make space for our fields. *)
  creation_counter ← gets Field_creation_counter;
  modify (set_Field_creation_counter
            (creation_counter + Z.of_nat (length languages)));;
  mret {| data := {| _field := field;
                     _specific := default ∅ specific;
                     languages := languages;
                     creation_counter := creation_counter;
                     fields := None;
                     short_description := None |};
          _attrgetter := default translated_attrgetter_def attrgetter;
          _attrsetter := default translated_attrsetter_def attrsetter;
          _getter := None;
          _setter := None |}.

(** [enumerate(l)] and a [for] loop that threads the variables it assigns. *)
Fixpoint enumerate {A} (start : Z) (l : list A) : list (Z * A) :=
  match l with
  | [] => []
  | x :: l' => (start, x) :: enumerate (start + 1) l'
  end.

Fixpoint for_ {A S} (l : list A) (body : A → S → M S) (s : S) : M S :=
  match l with
  | [] => mret s
  | x :: l' => s' ← body x s; for_ l' body s'
  end.

(** [d.setdefault(key, value)] *)
Definition setdefault (key : string) (value : pyval) (d : gmap string pyval)
    : gmap string pyval :=
  match d !! key with
  | Some _ => d
  | None => <[key := value]> d
  end.

(** The body of the loop of [contribute_to_class]; the loop assigns the
    list [fields]. *)
Definition contribute_storage_field (self : TranslatedFieldData)
    (cls : string) (args : list pyval) (kwargs : gmap string pyval)
    (verbose_name : pyval) (name : string) (item : Z * string)
    (fields : list string) : M (list string) :=
  let '(index, language_code) := item in
  let field_kw := default ∅ (_specific self !! language_code) ∪ kwargs in
  let field_kw :=
    setdefault "verbose_name"
      (_verbose_name_maybe_language_code verbose_name language_code)
      field_kw in
  f ← Field_init (Field.class_ (_field self)) args field_kw;
  let f := Field.set_language_code language_code f in
  let f := Field.set_creation_counter (creation_counter self + index) f in
  attr ← gets (to_attribute name (Some language_code));
  Field_contribute_to_class f cls attr;;
  mret (fields ++ [attr]).

Definition contribute_to_class (self : TranslatedField) (cls : string)
    (name : string) : M TranslatedField :=
  let '(args, kwargs) := Field.deconstruct (_field (data self)) in
  let verbose_name := default (PStr name) (kwargs !! "verbose_name") in
  let kwargs := delete "verbose_name" kwargs in
  fields ← for_ (enumerate 0 (languages (data self)))
             (contribute_storage_field (data self) cls args kwargs
                verbose_name name)
             [];
  setattr_cls cls name;;
  let self_data :=
    {| _field := _field (data self);
       _specific := _specific (data self);
       languages := languages (data self);
       creation_counter := creation_counter (data self);
       fields := Some fields;
       short_description := Some verbose_name |} in
  getter ← _optional_keywords (_attrgetter self) [AName name]
             {[ "field" := AField self_data ]};
  setter ← _optional_keywords (_attrsetter self) [AName name]
             {[ "field" := AField self_data ]};
  mret {| data := self_data;
          _attrgetter := _attrgetter self;
          _attrsetter := _attrsetter self;
          _getter := Some getter;
          _setter := Some setter |}.

Definition __get__ (self : TranslatedField) (obj : option Instance)
    (w : World) : result (TranslatedField + pyval) :=
  match obj with
  | None => Ok (inl self)
  | Some obj =>
      match _getter self with
      | None => Raise (AttributeError "_getter")
      | Some getter =>
          match getter w obj with
          | Ok v => Ok (inr v)
          | Raise e => Raise e
          end
      end
  end.

Definition __set__ (self : TranslatedField) (obj : Instance) (value : pyval)
    (w : World) : result Instance :=
  match _setter self with
  | None => Raise (AttributeError "_setter")
  | Some setter => setter w obj value
  end.

(** ** Read-only properties on other classes *)

(** A class that is not a model, seen through the properties installed on
    it: [property(fget)] by attribute name.  Reading such an attribute on an
    instance calls [fget] with the instance. *)
Abbreviation PlainClass := (gmap string Getter).

Definition property_get (cls : PlainClass) (name : string) (obj : Instance)
    (w : World) : result pyval :=
  match cls !! name with
  | Some fget => fget w obj
  | None => getattr obj name
  end.

(** [translated_attributes], called with the names and the factory
    [attrgetter], builds a descriptor
    around a fresh [Field()] and returns the class decorator.  The factory
    is called directly with the name and the descriptor; its default is
    [translated_attrgetter]. *)
Definition translated_attributes (names : list string)
    (attrgetter : string → TranslatedFieldData → Getter)
    : M (PlainClass → PlainClass) :=
  prototype ← Field_init "Field" [] ∅;
  field ← __init__ prototype None None None None;
  mret (λ cls,
          foldl (λ cls name, <[name := attrgetter name (data field)]> cls)
            cls names).

(** ** The admin views ([translated_fields/admin.py]) *)

Section Admin.

Context {Response : Type}.

(** [hasattr(response, "render")] and [response.render()] *)
Variable has_render : Response → bool.
Variable render : Response → M unit.

(** Both [changelist_view] and [changeform_view] wrap the view of the base
    class in the same way. *)
Definition view_with_language_codes (super_view : M Response) : M Response :=
  with_ (show_language_code true)
    (response ← super_view;
     (if has_render response then render response else mret tt);;
     mret response).

Definition changelist_view := view_with_language_codes.
Definition changeform_view := view_with_language_codes.

End Admin.

(** ** Notions used to state the properties *)

(** The namer's output alphabet. *)
Definition chars (s : string) : list ascii := list_ascii_of_string s.

Definition only_class (s : string) : Prop :=
  Forall (λ c, Py.in_class c = true) (chars s).

(** The normalisation as the documentation words it: cut the text into its
    maximal runs of characters inside, respectively outside, the class
    [[a-z0-9_]], and replace every run outside the class by one underscore. *)
Fixpoint group_runs (s : string) : list (bool * string) :=
  match s with
  | EmptyString => []
  | String c s' =>
      match group_runs s' with
      | (inside, run) :: rest =>
          if decide (inside = Py.in_class c)
          then (inside, String c run) :: rest
          else (Py.in_class c, String c EmptyString) :: (inside, run) :: rest
      | [] => [(Py.in_class c, String c EmptyString)]
      end
  end.

Definition replace_run (g : bool * string) : string :=
  if g.1 then g.2 else "_".

Fixpoint concat_str (l : list string) : string :=
  match l with
  | [] => EmptyString
  | x :: l' => x +:+ concat_str l'
  end.

Definition collapse_runs (s : string) : string :=
  concat_str (replace_run <$> group_runs s).

(** Neighbouring runs are of different kinds. *)
Fixpoint alternating (l : list (bool * string)) : Prop :=
  match l with
  | g :: ((h :: _) as l') => g.1 ≠ h.1 ∧ alternating l'
  | _ => True
  end.

(** The configured languages of a descriptor built with the argument
    [languages]: the explicit list when one is given and is not empty, else
    the codes of [settings.LANGUAGES], in their order. *)
Definition configured_languages (languages_arg : option (list string))
    (w : World) : list string :=
  match languages_arg with
  | Some (language :: others) => language :: others
  | _ => (LANGUAGES w).*1
  end.

(** The normal form of a name or of a language code. *)
Definition normalise (s : string) : string := Py.re_sub (Py.lower s).

(** The language a storage attribute is named after: the configured code, or
    the active language when the code is empty. *)
Definition effective_language (language_code : string) (w : World) : string :=
  Py.format (Py.or_ (Some language_code) (get_language w)).

(** A descriptor that uses the two default factories. *)
Definition default_accessors (self : TranslatedField) : Prop :=
  _attrgetter self = translated_attrgetter_def
  ∧ _attrsetter self = translated_attrsetter_def.

(** The state of the display toggle as [verbose_name_fn] sees it. *)
Definition toggle_active (w : World) : Prop := _show_language_code w = Some true.

(** [capfirst] on a text whose first character is an ASCII letter or is not
    a letter. *)
Definition capfirst_ascii (x : string) : string :=
  match x with
  | EmptyString => EmptyString
  | String c x' =>
      String (if Py.in_range 97 122 c then ascii_of_N (Py.code c - 32) else c) x'
  end.

(** What the loop of [contribute_to_class] hands to the framework for one
    item of [enumerate(self.languages)]: the attribute name and the field. *)
Definition storage_field (self : TranslatedFieldData) (name : string)
    (w : World) (item : Z * string) : string * Field.t :=
  let kwargs := Field.kwargs (_field self) in
  let verbose_name := default (PStr name) (kwargs !! "verbose_name") in
  (to_attribute name (Some item.2) w,
   {| Field.class_ := Field.class_ (_field self);
      Field.args := Field.args (_field self);
      Field.kwargs :=
        setdefault "verbose_name"
          (_verbose_name_maybe_language_code verbose_name item.2)
          (default ∅ (_specific self !! item.2)
             ∪ delete "verbose_name" kwargs);
      Field.creation_counter := creation_counter self + item.1;
      Field._translated_field_language_code := Some item.2 |}).

Definition storage_fields (self : TranslatedFieldData) (name : string)
    (w : World) : list (string * Field.t) :=
  storage_field self name w <$> enumerate 0 (languages self).

(** The part of the state that attaching a descriptor leaves alone. *)
Definition same_context (w w' : World) : Prop :=
  get_language w' = get_language w
  ∧ LANGUAGES w' = LANGUAGES w
  ∧ _show_language_code w' = _show_language_code w.

(** The base label of the generated fields: the [verbose_name] that
    [deconstruct()] returns for the prototype, or the logical name. *)
Definition base_label (self : TranslatedFieldData) (name : string) : pyval :=
  default (PStr name) (Field.kwargs (_field self) !! "verbose_name").

(** The language's overrides do not set [verbose_name]. *)
Definition label_not_overridden (self : TranslatedFieldData)
    (language_code : string) : Prop :=
  default ∅ (_specific self !! language_code) !! "verbose_name" = None.

(** The data attributes of a descriptor once it is attached. *)
Definition attached_data (self : TranslatedFieldData) (name : string)
    (w : World) : TranslatedFieldData :=
  {| _field := _field self;
     _specific := _specific self;
     languages := languages self;
     creation_counter := creation_counter self;
     fields := Some ((storage_fields self name w).*1);
     short_description := Some (base_label self name) |}.

(** The keywords with which [contribute_to_class] calls a factory: [field],
    if the factory declares it. *)
Definition factory_keywords {R} (fn : PyFunction farg R)
    (self : TranslatedFieldData) (name : string) (w : World)
    : gmap string farg :=
  filter (λ kv, declares fn kv.1)
    ({[ "field" := AField (attached_data self name w) ]} : gmap string farg).

(** ** Sample data *)

Definition sample_world : World :=
  {| get_language := Some "en";
     LANGUAGES := [("en", "English"); ("de", "German")];
     Field_creation_counter := 7;
     _show_language_code := None;
     warnings := [];
     classes := ∅ |}.

Definition sample_field : Field.t :=
  {| Field.class_ := "CharField";
     Field.args := [];
     Field.kwargs := {[ "max_length" := PObj 1 "200" ]};
     Field.creation_counter := 6;
     Field._translated_field_language_code := None |}.

Definition sample_descriptor (languages : list string) : TranslatedField :=
  {| data := {| _field := sample_field; _specific := ∅;
                languages := languages; creation_counter := 7;
                fields := None; short_description := None |};
     _attrgetter := translated_attrgetter_def;
     _attrsetter := translated_attrsetter_def;
     _getter := None; _setter := None |}.

Definition sample_instance : Instance :=
  {[ "title_en" := PStr "hello"; "title_de" := PStr "hallo" ]}.

(** * Properties *)

(** ** Strings *)

Section Strings.

Import Py.

Lemma app_nil_l_str (t : string) : EmptyString +:+ t = t.
Proof. reflexivity. Qed.

Lemma app_cons_str (c : ascii) (s t : string) :
  String c s +:+ t = String c (s +:+ t).
Proof. reflexivity. Qed.

Lemma app_nil_r_str (s : string) : s +:+ EmptyString = s.
Proof. induction s as [|c s IH]; [done|]. by rewrite app_cons_str, IH. Qed.

Lemma app_assoc_str (s t u : string) : (s +:+ t) +:+ u = s +:+ t +:+ u.
Proof. induction s as [|c s IH]; [done|]. by rewrite !app_cons_str, IH. Qed.

Lemma chars_app (s t : string) : chars (s +:+ t) = chars s ++ chars t.
Proof.
  induction s as [|c s IH]; [done|]. rewrite app_cons_str.
  unfold chars in *. cbn. by rewrite IH.
Qed.

Lemma lower_app (s t : string) : lower (s +:+ t) = lower s +:+ lower t.
Proof.
  induction s as [|c s IH]; [done|]. rewrite app_cons_str. cbn.
  by rewrite IH, app_cons_str.
Qed.

Lemma lower_char_in_class (c : ascii) :
  in_class c = true → lower_char c = c.
Proof.
  destruct c as [[] [] [] [] [] [] [] []]; vm_compute; congruence.
Qed.

Lemma lower_only_class (s : string) : only_class s → lower s = s.
Proof.
  unfold only_class. induction s as [|c s IH]; [done|].
  cbn. intros [Hc Hs]%Forall_cons. by rewrite lower_char_in_class, IH.
Qed.

Lemma re_sub_scan_only_class (b : bool) (s : string) :
  only_class s → re_sub_scan b s = s.
Proof.
  unfold only_class. revert b. induction s as [|c s IH]; intros b; [done|].
  cbn. intros [Hc Hs]%Forall_cons. by rewrite Hc, IH.
Qed.

(** A character of the class ends the current match: the text after it is
    scanned afresh. *)
Lemma re_sub_scan_app (b : bool) (s t : string) (c : ascii) :
  in_class c = true →
  re_sub_scan b (s +:+ String c t)
  = re_sub_scan b s +:+ String c (re_sub_scan false t).
Proof.
  intros Hc. revert b.
  induction s as [|a s IH]; intros b;
    rewrite ?app_nil_l_str, ?app_cons_str; cbn.
  - by rewrite Hc.
  - destruct (in_class a); [|destruct b]; by rewrite IH, ?app_cons_str.
Qed.

Lemma re_sub_scan_class (b : bool) (s : string) : only_class (re_sub_scan b s).
Proof.
  unfold only_class. revert b. induction s as [|c s IH]; intros b; cbn.
  - constructor.
  - destruct (in_class c) eqn:Hc; [|destruct b]; cbn; auto.
    all: constructor; [done|apply IH].
Qed.

(** The scanner against the run-by-run description. *)
Lemma re_sub_scan_group_runs (b : bool) (s : string) :
  re_sub_scan b s =
  match group_runs s with
  | (false, _) :: rest =>
      let out := concat_str (replace_run <$> rest) in
      if b then out else String "_" out
  | runs => concat_str (replace_run <$> runs)
  end.
Proof.
  revert b. induction s as [|c s IH]; intros b; [done|].
  cbn [re_sub_scan group_runs]. destruct (in_class c) eqn:Hc.
  - rewrite (IH false).
    destruct (group_runs s) as [|[[] run] rest]; cbn; try done.
  - rewrite (IH true).
    destruct (group_runs s) as [|[[] run] rest]; cbn; by destruct b.
Qed.

Lemma re_sub_collapse_runs (s : string) : re_sub s = collapse_runs s.
Proof.
  unfold re_sub, collapse_runs. rewrite re_sub_scan_group_runs.
  by destruct (group_runs s) as [|[[] run] rest].
Qed.

End Strings.

(** The runs of [group_runs] are the maximal runs of the text: put together
    they give the text back, each is non-empty and lies wholly inside or
    wholly outside the class, and neighbours are of different kinds. *)
Section Runs.

Import Py.

Lemma group_runs_concat (s : string) : concat_str ((group_runs s).*2) = s.
Proof.
  induction s as [|c s IH]; [done|]. cbn [group_runs].
  destruct (group_runs s) as [|[inside run] rest]; cbn in *.
  - by rewrite <- IH.
  - case_decide; cbn; rewrite ?app_cons_str, ?app_nil_l_str; by rewrite IH.
Qed.

Lemma group_runs_uniform (s : string) :
  Forall (λ g, g.2 ≠ EmptyString
               ∧ Forall (λ c, in_class c = g.1) (chars g.2))
         (group_runs s).
Proof.
  induction s as [|c s IH]; [constructor|]. cbn [group_runs].
  destruct (group_runs s) as [|[inside run] rest].
  - repeat constructor; done.
  - apply Forall_cons in IH as [[Hne Hrun] Hrest]. case_decide; subst.
    + constructor; [|done]. split; [done|]. by constructor.
    + repeat constructor; done.
Qed.

Lemma group_runs_alternating (s : string) : alternating (group_runs s).
Proof.
  induction s as [|c s IH]; [done|]. cbn [group_runs].
  destruct (group_runs s) as [|[inside run] rest] eqn:E; [done|].
  case_decide; subst.
  - destruct rest; [done|]. exact IH.
  - split; [cbn; congruence|exact IH].
Qed.

End Runs.

(** ** The attribute namer *)

Section Namer.

Import Py.

Lemma normalise_class (s : string) : only_class (normalise s).
Proof. apply re_sub_scan_class. Qed.

Lemma normalise_only_class (s : string) : only_class s → normalise s = s.
Proof.
  intros H. unfold normalise, re_sub.
  by rewrite lower_only_class, re_sub_scan_only_class.
Qed.

Lemma only_class_app (s t : string) :
  only_class s → only_class t → only_class (s +:+ t).
Proof. unfold only_class. rewrite chars_app. apply Forall_app_2. Qed.

(** The underscore between name and language keeps the two apart: each
    side is normalised on its own. *)
Lemma normalise_join (name language : string) :
  normalise (name +:+ "_" +:+ language)
  = normalise name +:+ "_" +:+ normalise language.
Proof.
  unfold normalise, re_sub.
  change ("_" +:+ language) with (String "_" language).
  rewrite lower_app. cbn [lower].
  change (lower_char "_") with "_"%char.
  by rewrite re_sub_scan_app.
Qed.

Lemma to_attribute_explicit (name language : string) (w : World) :
  to_attribute name (Some language) w
  = normalise name +:+ "_" +:+ normalise (effective_language language w).
Proof. unfold to_attribute, effective_language. apply normalise_join. Qed.

Lemma to_attribute_active (name : string) (w : World) :
  to_attribute name None w
  = normalise name +:+ "_" +:+ normalise (format (get_language w)).
Proof. unfold to_attribute. apply normalise_join. Qed.

Lemma effective_language_nonempty (language : string) (w : World) :
  language ≠ EmptyString → effective_language language w = language.
Proof.
  intros H. unfold effective_language, or_, truthy. by case_decide.
Qed.

Lemma to_attribute_class (name : string) (language : option string)
    (w : World) : only_class (to_attribute name language w).
Proof. apply re_sub_scan_class. Qed.

End Namer.

(** C5.  For a logical name and a non-empty explicit language code,
    [to_attribute] returns the text "name_language", lower-cased, in which
    every maximal run of characters outside [[a-z0-9_]] is replaced by one
    underscore; the result has only characters of [[a-z0-9_]]; and it is the
    same whatever the state of the process, the active language included. *)
Theorem to_attribute_normalises (name language : string) (w : World) :
  language ≠ EmptyString →
  to_attribute name (Some language) w
  = collapse_runs (Py.lower (name +:+ "_" +:+ language))
  ∧ only_class (to_attribute name (Some language) w)
  ∧ ∀ w' : World,
      to_attribute name (Some language) w'
      = to_attribute name (Some language) w.
Proof.
  intros Hne.
  assert (∀ v, to_attribute name (Some language) v
               = Py.re_sub (Py.lower (name +:+ "_" +:+ language))) as E.
  { intros v. unfold to_attribute, Py.or_, Py.truthy. by case_decide. }
  split; [|split].
  - by rewrite E, re_sub_collapse_runs.
  - apply to_attribute_class.
  - intros w'. by rewrite !E.
Qed.

Lemma to_attribute_normalises_witness :
  to_attribute "Article Title" (Some "pt-BR") sample_world = "article_title_pt_br"
  ∧ only_class (to_attribute "Article Title" (Some "pt-BR") sample_world).
Proof.
  destruct (to_attribute_normalises "Article Title" "pt-BR" sample_world)
    as (E & Hclass & _); [done|].
  split; [|exact Hclass].
  rewrite E. reflexivity.
Defined.

(** C10.  With the empty string as explicit language code, [to_attribute]
    does what it does without a language code: the active language is used. *)
Theorem to_attribute_empty_language (name : string) (w : World) :
  to_attribute name (Some EmptyString) w = to_attribute name None w
  ∧ to_attribute name (Some EmptyString) w
    = Py.re_sub (Py.lower (name +:+ "_" +:+ Py.format (get_language w))).
Proof. split; reflexivity. Qed.

(** ** The display toggle *)

Lemma show_language_code_enter_sets (show : bool) (w : World) :
  before_yield (show_language_code show) w
  = (Ok {| old_value := _show_language_code w |},
     set_show_language_code (Some show) w).
Proof. reflexivity. Qed.

(** Inside the block the toggle has the value given to the scope. *)
Lemma with_show_language_code_inside {A} (show : bool) (block : M A)
    (w : World) :
  ∃ w1, _show_language_code w1 = Some show
        ∧ with_ (show_language_code show) block w
          = match block w1 with
            | (Ok a, w2) =>
                (Ok a, set_show_language_code (_show_language_code w) w2)
            | (Raise e, w2) => (Raise e, w2)
            end.
Proof.
  exists (set_show_language_code (Some show) w). split; [done|].
  unfold with_. rewrite show_language_code_enter_sets.
  by destruct (block _) as [[a|e] w2].
Qed.

(** After a block that ends normally the toggle has its prior value,
    whatever the block did to it. *)
Lemma with_show_language_code_restores {A} (show : bool) (block : M A)
    (w w' : World) (a : A) :
  with_ (show_language_code show) block w = (Ok a, w') →
  _show_language_code w' = _show_language_code w.
Proof.
  destruct (with_show_language_code_inside show block w) as (w1 & _ & ->).
  destruct (block w1) as [[b|e] w2]; [|done]. by intros [= _ <-].
Qed.

(** After a block that raises, the state is the one the block left: the
    code after the [yield] has not run. *)
Lemma with_show_language_code_raises {A} (show : bool) (block : M A)
    (w w2 : World) (e : exn) :
  block (set_show_language_code (Some show) w) = (Raise e, w2) →
  with_ (show_language_code show) block w = (Raise e, w2).
Proof.
  intros H. unfold with_.
  by rewrite show_language_code_enter_sets, H.
Qed.

(** C1, on the exceptional exit.  The toggle has no value; a scope is
    entered with [True] and the wrapped operation raises: the exception
    leaves the scope and the toggle is still [True], it is not put back to
    its prior state.  The same happens when a view of the base admin class
    raises inside [changelist_view]. *)
Theorem show_language_code_exception_keeps_toggle :
  let block : M unit := mthrow (Exception 0) in
  let after := with_ (show_language_code true) block sample_world in
  let after_view :=
    changelist_view (λ _ : unit, false) (λ _, mret tt) block sample_world in
  _show_language_code sample_world = None
  ∧ after.1 = Raise (Exception 0)
  ∧ _show_language_code after.2 = Some true
  ∧ after_view.1 = Raise (Exception 0)
  ∧ _show_language_code after_view.2 = Some true.
Proof. repeat split. Qed.

(** ** Attaching the descriptor to a class *)

Section Attach.

Lemma get_class_set_class (cls : string) (c : ModelClass) (w : World) :
  get_class cls (set_class cls c w) = c.
Proof. unfold get_class, set_class. cbn. by rewrite lookup_insert_eq. Qed.

(** The loop: one field per item, registered in order; the framework's
    constructor has advanced the counter once per field; nothing else has
    changed. *)
Lemma for_contribute_storage_field (self : TranslatedFieldData)
    (cls name : string) (langs : list string) (start : Z)
    (fields : list string) (w : World) :
  ∃ w',
    for_ (enumerate start langs)
      (contribute_storage_field self cls (Field.args (_field self))
         (delete "verbose_name" (Field.kwargs (_field self)))
         (base_label self name) name)
      fields w
    = (Ok (fields ++ ((storage_field self name w <$> enumerate start langs).*1)),
       w')
    ∧ same_context w w'
    ∧ warnings w' = warnings w
    ∧ Field_creation_counter w'
      = Field_creation_counter w + Z.of_nat (length langs)
    ∧ contributed (get_class cls w')
      = contributed (get_class cls w)
          ++ (storage_field self name w <$> enumerate start langs)
    ∧ descriptors (get_class cls w') = descriptors (get_class cls w).
Proof.
  revert start fields w.
  induction langs as [|language_code langs IH]; intros start fields w.
  - exists w. cbn. rewrite !app_nil_r, Z.add_0_r. by repeat split.
  - set (w1 := set_class cls
        {| contributed := contributed (get_class cls w)
             ++ [storage_field self name w (start, language_code)];
           descriptors := descriptors (get_class cls w) |}
        (set_Field_creation_counter (Field_creation_counter w + 1) w)).
    destruct (IH (start + 1)
                (fields ++ [(storage_field self name w (start, language_code)).1])
                w1)
      as (w' & Hrun & (Hl & HL & Hs) & Hw & Hc & Hf & Hd).
    assert (get_language w1 = get_language w) as Hlang by done.
    exists w'. split; [|repeat split].
    + cbn [enumerate for_]. unfold mbind, M_bind, bind.
      change (contribute_storage_field self cls (Field.args (_field self))
                (delete "verbose_name" (Field.kwargs (_field self)))
                (base_label self name) name (start, language_code) fields w)
        with (Ok (fields
                   ++ [(storage_field self name w (start, language_code)).1]),
              w1).
      cbv beta iota. rewrite Hrun. f_equal. f_equal.
      by rewrite <- app_assoc.
    + by rewrite Hl.
    + by rewrite HL.
    + by rewrite Hs.
    + by rewrite Hw.
    + rewrite Hc. cbn. lia.
    + rewrite Hf. unfold w1. rewrite get_class_set_class. cbn.
      by rewrite <- app_assoc.
    + rewrite Hd. unfold w1. by rewrite get_class_set_class.
Qed.

Lemma _optional_keywords_run {A R} (fn : PyFunction A R) (args : list A)
    (kwargs : gmap string A) (w : World) :
  _optional_keywords fn args kwargs w
  = (call fn args (filter (λ kv, declares fn kv.1) kwargs),
     if decide (unsupported fn kwargs ≠ ∅)
     then add_warning
            {| category := "DeprecationWarning";
               message := __name__ fn +:+ " has unsupported arguments: "
                          +:+ join ", " (sorted (unsupported fn kwargs)) |} w
     else w).
Proof. unfold _optional_keywords. by case_decide. Qed.

(** The helper touches nothing but the list of warnings. *)
Lemma _optional_keywords_frame {A R} (fn : PyFunction A R) (args : list A)
    (kwargs : gmap string A) (w : World) :
  let w' := (_optional_keywords fn args kwargs w).2 in
  same_context w w'
  ∧ Field_creation_counter w' = Field_creation_counter w
  ∧ classes w' = classes w.
Proof. rewrite _optional_keywords_run. cbn. by case_decide. Qed.

(** Attaching, whatever the factories are: the class receives the fields of
    [storage_fields] and the descriptor, also when a factory raises. *)
Lemma contribute_to_class_state (self : TranslatedField) (cls name : string)
    (w : World) :
  let r := contribute_to_class self cls name w in
  same_context w r.2
  ∧ Field_creation_counter r.2
    = Field_creation_counter w + Z.of_nat (length (languages (data self)))
  ∧ contributed (get_class cls r.2)
    = contributed (get_class cls w) ++ storage_fields (data self) name w
  ∧ descriptors (get_class cls r.2) = descriptors (get_class cls w) ++ [name]
  ∧ ∀ self', r.1 = Ok self' →
      languages (data self') = languages (data self)
      ∧ creation_counter (data self') = creation_counter (data self)
      ∧ fields (data self') = Some ((storage_fields (data self) name w).*1)
      ∧ short_description (data self') = Some (base_label (data self) name).
Proof.
  destruct (for_contribute_storage_field (data self) cls name
              (languages (data self)) 0 [] w)
    as (w1 & Hrun & (Hl & HL & Hs) & Hw & Hc & Hf & Hd).
  unfold contribute_to_class, Field.deconstruct. cbv beta iota zeta.
  unfold mbind, M_bind, bind. fold (base_label (data self) name).
  rewrite Hrun. cbn [app]. fold (storage_fields (data self) name w).
  set (w2 := set_class cls
                {| contributed := contributed (get_class cls w1);
                   descriptors := descriptors (get_class cls w1) ++ [name] |}
                w1).
  change (setattr_cls cls name w1) with (Ok tt, w2). cbv beta iota.
  set (self_data := {| _field := _ |}).
  set (kw := {[ "field" := AField self_data ]}).
  assert (∀ w', classes w' = classes w2 →
            contributed (get_class cls w')
            = contributed (get_class cls w) ++ storage_fields (data self) name w
            ∧ descriptors (get_class cls w')
              = descriptors (get_class cls w) ++ [name]) as Hcls.
  { intros w' E. unfold get_class at 1 3. rewrite E. unfold w2. cbn.
    rewrite lookup_insert_eq. cbn. by rewrite Hf, Hd. }
  pose proof (_optional_keywords_frame (_attrgetter self) [AName name] kw w2)
    as ((Hl3 & HL3 & Hs3) & Hc3 & Hk3).
  destruct (_optional_keywords (_attrgetter self) [AName name] kw w2)
    as [[getter|e] w3]; cbn [snd] in Hl3, HL3, Hs3, Hc3, Hk3.
  - pose proof (_optional_keywords_frame (_attrsetter self) [AName name] kw w3)
      as ((Hl4 & HL4 & Hs4) & Hc4 & Hk4).
    destruct (_optional_keywords (_attrsetter self) [AName name] kw w3)
      as [[setter|e] w4]; cbn [snd] in Hl4, HL4, Hs4, Hc4, Hk4; cbn [fst snd].
    all: destruct (Hcls w4) as [Hf4 Hd4]; [congruence|].
    all: split; [unfold same_context; cbn in *; repeat split; congruence|].
    all: split; [cbn in *; congruence|].
    all: split; [exact Hf4|]. all: split; [exact Hd4|].
    all: intros self' [= <-]; by repeat split.
  - cbn [fst snd]. destruct (Hcls w3) as [Hf3 Hd3]; [congruence|].
    split; [unfold same_context; cbn in *; repeat split; congruence|].
    split; [cbn in *; congruence|].
    split; [exact Hf3|]. split; [exact Hd3|].
    by intros self' [=].
Qed.

(** The default factories declare both arguments they are called with: no
    warning, and the accessor is the closure over the name and the
    descriptor. *)
Lemma default_factory_call {R} (fn : PyFunction farg R)
    (f : string → TranslatedFieldData → R) (name : string)
    (d : TranslatedFieldData) (w : World) :
  parameters fn = name_field →
  (∀ args kwargs,
     body fn args kwargs
     = match bind_name_field args kwargs with
       | Ok (name, field) => Ok (f name field)
       | Raise e => Raise e
       end) →
  _optional_keywords fn [AName name] {[ "field" := AField d ]} w
  = (Ok (f name d), w).
Proof.
  intros Hparams Hbody. rewrite _optional_keywords_run.
  assert (declares fn "field") as Hdecl.
  { unfold declares. rewrite Hparams. set_solver. }
  rewrite map_filter_singleton_True by done.
  rewrite decide_False; last first.
  { intros H. apply H. unfold unsupported. rewrite dom_singleton_L, Hparams.
    set_solver. }
  f_equal. unfold call. rewrite decide_True; last first.
  { rewrite dom_singleton_L. apply set_Forall_singleton.
    left. rewrite Hparams. unfold name_field. by repeat constructor. }
  rewrite Hbody. unfold bind_name_field.
  by rewrite lookup_singleton_ne, lookup_singleton_eq.
Qed.

Lemma contribute_to_class_default (self : TranslatedField) (cls name : string)
    (w : World) :
  default_accessors self →
  ∃ self' w',
    contribute_to_class self cls name w = (Ok self', w')
    ∧ _getter self' = Some (translated_attrgetter name (data self'))
    ∧ _setter self' = Some (translated_attrsetter name (data self'))
    ∧ warnings w' = warnings w.
Proof.
  intros [Hg Hs].
  destruct (for_contribute_storage_field (data self) cls name
              (languages (data self)) 0 [] w)
    as (w1 & Hrun & _ & Hw & _).
  unfold contribute_to_class, Field.deconstruct. cbv beta iota zeta.
  unfold mbind, M_bind, bind. fold (base_label (data self) name).
  rewrite Hrun, Hg, Hs.
  set (w2 := set_class cls
                {| contributed := contributed (get_class cls w1);
                   descriptors := descriptors (get_class cls w1) ++ [name] |}
                w1).
  change (setattr_cls cls name w1) with (Ok tt, w2). cbv beta iota.
  rewrite (default_factory_call translated_attrgetter_def translated_attrgetter)
    by done.
  rewrite (default_factory_call translated_attrsetter_def translated_attrsetter)
    by done.
  eexists _, _. split; [reflexivity|]. by repeat split.
Qed.

End Attach.

(** ** The generated fields *)

Section Generated.

Lemma enumerate_lookup {A} (l : list A) (start : Z) (i : nat) :
  enumerate start l !! i = (λ x, (start + Z.of_nat i, x)) <$> l !! i.
Proof.
  revert start i. induction l as [|x l IH]; intros start [|i]; try done.
  - cbn. by rewrite Z.add_0_r.
  - cbn [enumerate]. rewrite !lookup_cons_ne_0 by done. cbn [Nat.pred].
    rewrite IH. destruct (l !! i); [|done]. cbn. do 2 f_equal. lia.
Qed.

Lemma length_enumerate {A} (l : list A) (start : Z) :
  length (enumerate start l) = length l.
Proof. revert start. induction l as [|x l IH]; intros start; cbn; auto. Qed.

Lemma enumerate_snd {A} (l : list A) (start : Z) : (enumerate start l).*2 = l.
Proof.
  revert start. induction l as [|x l IH]; intros start; [done|].
  cbn. by rewrite IH.
Qed.

Lemma storage_fields_lookup (self : TranslatedFieldData) (name : string)
    (w : World) (i : nat) :
  storage_fields self name w !! i
  = (λ language_code, storage_field self name w (Z.of_nat i, language_code))
      <$> languages self !! i.
Proof.
  unfold storage_fields. rewrite list_lookup_fmap, enumerate_lookup.
  by destruct (languages self !! i).
Qed.

Lemma length_storage_fields (self : TranslatedFieldData) (name : string)
    (w : World) :
  length (storage_fields self name w) = length (languages self).
Proof. unfold storage_fields. by rewrite length_fmap, length_enumerate. Qed.

Lemma storage_fields_names (self : TranslatedFieldData) (name : string)
    (w : World) :
  (storage_fields self name w).*1
  = (λ language_code, to_attribute name (Some language_code) w)
      <$> languages self.
Proof.
  unfold storage_fields. rewrite <- list_fmap_compose.
  rewrite <- (enumerate_snd (languages self) 0) at 2.
  by rewrite <- list_fmap_compose.
Qed.

Lemma storage_fields_counters_increase (self : TranslatedFieldData)
    (name : string) (w : World) (i j : nat) (f g : string * Field.t) :
  (i < j)%nat →
  storage_fields self name w !! i = Some f →
  storage_fields self name w !! j = Some g →
  Field.creation_counter f.2 < Field.creation_counter g.2.
Proof.
  rewrite !storage_fields_lookup. intros Hij Hf Hg.
  destruct (languages self !! i); [|done].
  destruct (languages self !! j); [|done].
  cbn in Hf, Hg. simplify_eq. cbn. lia.
Qed.

Lemma storage_fields_counters_distinct (self : TranslatedFieldData)
    (name : string) (w : World) :
  NoDup ((λ f, Field.creation_counter f.2) <$> storage_fields self name w).
Proof.
  apply NoDup_alt. intros i j n.
  rewrite !list_lookup_fmap, !storage_fields_lookup.
  destruct (languages self !! i); [|done].
  destruct (languages self !! j); [|done].
  cbn. intros [= <-] [= E]. lia.
Qed.

(** The names differ exactly when the normal forms of the languages do. *)
Lemma distinct_names_iff_distinct_codes (self : TranslatedFieldData) (name : string)
    (w : World) :
  NoDup ((storage_fields self name w).*1)
  ↔ NoDup ((λ language_code, normalise (effective_language language_code w))
             <$> languages self).
Proof.
  rewrite storage_fields_names.
  rewrite (list_fmap_ext
             (λ language_code, to_attribute name (Some language_code) w)
             (String.app (normalise name +:+ "_")
                ∘ (λ language_code,
                     normalise (effective_language language_code w)))
             (languages self)).
  2:{ intros i x _. cbn. by rewrite to_attribute_explicit, app_assoc_str. }
  rewrite list_fmap_compose. split.
  - apply NoDup_fmap_1.
  - apply NoDup_fmap_2, _.
Qed.

End Generated.

(** C4.  Construction records as the descriptor's languages the
    configured ones (the explicit list if it is given and not empty, else
    the codes of the settings), records the value of the global ordering
    counter and advances the counter by the number of configured languages.
    Class attachment registers exactly one storage field per configured
    language: the field of the i-th language carries that language's code
    and the counter value (recorded value + i), under the mangled name;
    hence the counter values of the generated fields are pairwise distinct
    and increase in the order of the languages. *)
Theorem creation_counter_block (field : Field.t)
    (specific : option (gmap string (gmap string pyval)))
    (languages_arg : option (list string))
    (attrgetter : option (PyFunction farg Getter))
    (attrsetter : option (PyFunction farg Setter))
    (cls name : string) (w wa : World) :
  let init := __init__ field specific languages_arg attrgetter attrsetter w in
  let configured := configured_languages languages_arg w in
  ∃ self,
    init.1 = Ok self
    ∧ languages (data self) = configured
    ∧ creation_counter (data self) = Field_creation_counter w
    ∧ Field_creation_counter init.2
      = Field_creation_counter w + Z.of_nat (length configured)
    ∧ let after := (contribute_to_class self cls name wa).2 in
      ∃ new,
        contributed (get_class cls after)
        = contributed (get_class cls wa) ++ new
        ∧ length new = length configured
        ∧ (∀ (i : nat) language_code,
             configured !! i = Some language_code →
             ∃ f, new !! i
                  = Some (to_attribute name (Some language_code) wa, f)
                  ∧ Field._translated_field_language_code f
                    = Some language_code
                  ∧ Field.creation_counter f
                    = Field_creation_counter w + Z.of_nat i)
        ∧ NoDup ((λ f, Field.creation_counter f.2) <$> new)
        ∧ ∀ (i j : nat) f g,
            (i < j)%nat → new !! i = Some f → new !! j = Some g →
            Field.creation_counter f.2 < Field.creation_counter g.2.
Proof.
  intros init configured.
  set (self :=
    {| data := {| _field := field;
                  _specific := default ∅ specific;
                  languages := configured;
                  creation_counter := Field_creation_counter w;
                  fields := None;
                  short_description := None |};
       _attrgetter := default translated_attrgetter_def attrgetter;
       _attrsetter := default translated_attrsetter_def attrsetter;
       _getter := None;
       _setter := None |}).
  assert (init
          = (Ok self,
             set_Field_creation_counter
               (Field_creation_counter w + Z.of_nat (length configured)) w))
    as Hinit by reflexivity.
  exists self. rewrite Hinit. cbn [fst snd].
  split; [reflexivity|]. split; [reflexivity|]. split; [reflexivity|].
  split; [reflexivity|].
  destruct (contribute_to_class_state self cls name wa) as (_ & _ & Hf & _).
  exists (storage_fields (data self) name wa).
  split; [exact Hf|]. split; [apply length_storage_fields|].
  split; [|split].
  - intros i language_code Hi. rewrite storage_fields_lookup.
    cbn [data languages self]. rewrite Hi. cbn. eexists. by repeat split.
  - apply storage_fields_counters_distinct.
  - apply storage_fields_counters_increase.
Qed.

(** C6, as amended.  When the configured language codes have pairwise
    distinct normal forms (the code, or the active language for an empty
    code, lower-cased with every run outside [[a-z0-9_]] collapsed), the
    storage attribute names generated for a descriptor on a class are
    pairwise distinct. *)
Theorem storage_names_distinct (self : TranslatedField) (cls name : string)
    (wa : World) :
  NoDup ((λ language_code, normalise (effective_language language_code wa))
           <$> languages (data self)) →
  let after := contribute_to_class self cls name wa in
  ∃ new,
    contributed (get_class cls after.2) = contributed (get_class cls wa) ++ new
    ∧ new.*1 = (λ language_code, to_attribute name (Some language_code) wa)
                 <$> languages (data self)
    ∧ NoDup (new.*1)
    ∧ ∀ self', after.1 = Ok self' → fields (data self') = Some (new.*1).
Proof.
  intros Hdistinct after.
  destruct (contribute_to_class_state self cls name wa)
    as (_ & _ & Hf & _ & Hok).
  exists (storage_fields (data self) name wa).
  split; [exact Hf|]. split; [apply storage_fields_names|].
  split; [by apply distinct_names_iff_distinct_codes|].
  intros self' E. by destruct (Hok self' E) as (_ & _ & ? & _).
Qed.

Lemma storage_names_distinct_witness :
  ∃ new,
    contributed
      (get_class "Article"
         (contribute_to_class (sample_descriptor ["en"; "de"]) "Article"
            "title" sample_world).2)
    = contributed (get_class "Article" sample_world) ++ new
    ∧ new.*1 = ["title_en"; "title_de"]
    ∧ NoDup (new.*1).
Proof.
  destruct (storage_names_distinct (sample_descriptor ["en"; "de"]) "Article"
              "title" sample_world) as (new & Hf & Hn & Hd & _).
  { apply (bool_decide_unpack _). by vm_compute. }
  exists new. split; [exact Hf|]. split; [|exact Hd].
  rewrite Hn. reflexivity.
Defined.

(** C6 as stated fails: the codes "en" and "EN" are two configured
    languages with one storage attribute name. *)
Lemma storage_names_clash :
  ∃ self' w',
    contribute_to_class (sample_descriptor ["en"; "EN"]) "Article" "title"
      sample_world = (Ok self', w')
    ∧ fields (data self') = Some ["title_en"; "title_en"]
    ∧ (contributed (get_class "Article" w')).*1 = ["title_en"; "title_en"]
    ∧ ¬ NoDup ["title_en"; "title_en"].
Proof.
  destruct (contribute_to_class_default (sample_descriptor ["en"; "EN"])
              "Article" "title" sample_world) as (self' & w' & E & _);
    [done|].
  destruct (contribute_to_class_state (sample_descriptor ["en"; "EN"])
              "Article" "title" sample_world) as (_ & _ & Hf & _ & Hok).
  rewrite E in Hf, Hok. cbn [fst snd] in Hf, Hok.
  exists self', w'. split; [done|].
  destruct (Hok self' eq_refl) as (_ & _ & Hfields & _).
  split; [exact Hfields|]. split; [by rewrite Hf|].
  intros H. apply NoDup_cons in H as [H _]. apply H. by left.
Qed.

(** ** Labels *)

Lemma storage_field_label (self : TranslatedFieldData) (name : string)
    (w : World) (item : Z * string) :
  label_not_overridden self item.2 →
  Field.kwargs (storage_field self name w item).2 !! "verbose_name"
  = Some (PLazy (base_label self name) item.2).
Proof.
  unfold label_not_overridden, storage_field, setdefault. cbn. intros H.
  assert ((default ∅ (_specific self !! item.2)
             ∪ delete "verbose_name" (Field.kwargs (_field self)))
            !! "verbose_name" = None) as ->.
  { apply lookup_union_None. split; [done|]. apply lookup_delete_eq. }
  by rewrite lookup_insert_eq.
Qed.

(** C7, as amended.  For a generated storage field whose [verbose_name] is
    not overridden for its language, the label rendered while the display
    toggle is active is the base label passed through [capfirst], followed
    by a space and the language code in square brackets; rendered while the
    toggle is inactive (false, or without a value) it is the base label
    unchanged. *)
Theorem verbose_name_shows_language_code (capfirst : string → string)
    (self : TranslatedField) (cls name : string) (wa : World) (i : nat)
    (language_code : string) :
  languages (data self) !! i = Some language_code →
  label_not_overridden (data self) language_code →
  let after := (contribute_to_class self cls name wa).2 in
  let base := base_label (data self) name in
  ∃ attr f label,
    contributed (get_class cls after)
      !! (length (contributed (get_class cls wa)) + i)%nat = Some (attr, f)
    ∧ Field._translated_field_language_code f = Some language_code
    ∧ Field.kwargs f !! "verbose_name" = Some label
    ∧ ∀ w,
        (toggle_active w →
         str capfirst w label
         = capfirst (str capfirst w base) +:+ " [" +:+ language_code +:+ "]")
        ∧ (¬ toggle_active w → str capfirst w label = str capfirst w base).
Proof.
  intros Hi Hno after base.
  destruct (contribute_to_class_state self cls name wa) as (_ & _ & Hf & _).
  pose (item := (Z.of_nat i, language_code)).
  exists (storage_field (data self) name wa item).1,
         (storage_field (data self) name wa item).2,
         (PLazy base language_code).
  split; [|split; [done|split]].
  - unfold after. rewrite Hf, lookup_app_r by lia.
    replace (_ + i - _)%nat with i by lia.
    rewrite storage_fields_lookup, Hi. reflexivity.
  - by apply (storage_field_label (data self) name wa item).
  - intros w. unfold toggle_active. cbn [str]. unfold verbose_name_fn, ContextVar_get.
    split.
    + by intros ->.
    + destruct (_show_language_code w) as [[]|]; done.
Qed.

Lemma verbose_name_shows_language_code_witness :
  ∃ attr f label,
    contributed
      (get_class "Article"
         (contribute_to_class (sample_descriptor ["en"; "de"]) "Article"
            "title" sample_world).2) !! 1%nat = Some (attr, f)
    ∧ Field.kwargs f !! "verbose_name" = Some label
    ∧ str capfirst_ascii (set_show_language_code (Some true) sample_world)
        label = "Title [de]"
    ∧ str capfirst_ascii sample_world label = "title".
Proof.
  destruct (verbose_name_shows_language_code capfirst_ascii
              (sample_descriptor ["en"; "de"]) "Article" "title" sample_world
              1 "de") as (attr & f & label & Hf & _ & Hl & Hstr);
    [done|done|].
  exists attr, f, label. split; [exact Hf|]. split; [exact Hl|]. split.
  - by rewrite (proj1 (Hstr _)).
  - by rewrite (proj2 (Hstr _)).
Defined.

(** C7 as stated fails: the rendered label of the field "title" for "en" is
    "Title [en]", which is not the base label "title" with "[en]" appended,
    with or without a space. *)
Lemma verbose_name_is_capitalised :
  let w := set_show_language_code (Some true) sample_world in
  let label := _verbose_name_maybe_language_code (PStr "title") "en" in
  toggle_active w
  ∧ str capfirst_ascii w label = "Title [en]"
  ∧ str capfirst_ascii w label ≠ "title" +:+ "[en]"
  ∧ str capfirst_ascii w label ≠ "title" +:+ " " +:+ "[en]".
Proof. by repeat split. Qed.

(** ** Reading and writing through the descriptor *)

Section Access.

(** Attaching a descriptor that uses the default factories succeeds; the
    result reads and writes through the two default closures. *)
Lemma attach_default (self : TranslatedField) (cls name : string) (wa : World) :
  default_accessors self →
  ∃ self' wa',
    contribute_to_class self cls name wa = (Ok self', wa')
    ∧ languages (data self') = languages (data self)
    ∧ fields (data self')
      = Some ((λ language_code, to_attribute name (Some language_code) wa)
                <$> languages (data self))
    ∧ (∀ obj w,
         __get__ self' (Some obj) w
         = match translated_attrgetter name (data self') w obj with
           | Ok v => Ok (inr v)
           | Raise e => Raise e
           end)
    ∧ ∀ obj value w,
        __set__ self' obj value w
        = Ok (setattr obj (to_attribute name None w) value).
Proof.
  intros Hdef.
  destruct (contribute_to_class_default self cls name wa Hdef)
    as (self' & wa' & E & Hg & Hs & _).
  destruct (contribute_to_class_state self cls name wa) as (_ & _ & _ & _ & Hok).
  rewrite E in Hok. destruct (Hok self' eq_refl) as (Hl & _ & Hf & _).
  exists self', wa'. split; [done|]. split; [done|].
  split; [by rewrite Hf, storage_fields_names|]. split.
  - intros obj w. unfold __get__. by rewrite Hg.
  - intros obj value w. unfold __set__. by rewrite Hs.
Qed.

Lemma normalise_en_de (name : string) :
  normalise name +:+ "_en" ≠ normalise name +:+ "_de".
Proof. by intros H%(inj (String.app _)). Qed.

End Access.

(** C2, as amended.  For a descriptor with the default getter whose first
    configured language code is not the empty string, reading the logical
    attribute of an instance while no language is active returns the value
    of the first generated storage attribute (and fails as [getattr] does
    when the instance has no such attribute). *)
Theorem getter_falls_back_to_first_language (self : TranslatedField)
    (cls name : string) (wa wr : World) (obj : Instance)
    (first : string) (others : list string) :
  default_accessors self →
  languages (data self) = first :: others →
  first ≠ EmptyString →
  get_language wr = None →
  ∃ self' wa' attr attrs,
    contribute_to_class self cls name wa = (Ok self', wa')
    ∧ fields (data self') = Some (attr :: attrs)
    ∧ attr = to_attribute name (Some first) wa
    ∧ __get__ self' (Some obj) wr
      = match obj !! attr with
        | Some v => Ok (inr v)
        | None => Raise (AttributeError attr)
        end.
Proof.
  intros Hdef Hlangs Hfirst Hnone.
  destruct (attach_default self cls name wa Hdef)
    as (self' & wa' & E & Hl & Hf & Hget & _).
  rewrite Hlangs in Hf, Hl. cbn in Hf.
  eexists self', wa', _, _. split; [done|]. split; [exact Hf|].
  split; [done|].
  rewrite Hget. unfold translated_attrgetter, getattr.
  rewrite Hnone, Hl. cbn.
  assert (to_attribute name (Some first) wr = to_attribute name (Some first) wa)
    as ->.
  { by rewrite !to_attribute_explicit, !effective_language_nonempty. }
  by destruct (obj !! _).
Qed.

Lemma getter_falls_back_to_first_language_witness :
  ∃ self' wa' attrs,
    contribute_to_class (sample_descriptor ["en"; "de"]) "Article" "title"
      sample_world = (Ok self', wa')
    ∧ fields (data self') = Some ("title_en" :: attrs)
    ∧ __get__ self' (Some sample_instance) (activate None sample_world)
      = Ok (inr (PStr "hello")).
Proof.
  destruct (getter_falls_back_to_first_language
              (sample_descriptor ["en"; "de"]) "Article" "title" sample_world
              (activate None sample_world) sample_instance "en" ["de"])
    as (self' & wa' & attr & attrs & E & Hf & Ha & Hget).
  - split; reflexivity.
  - reflexivity.
  - discriminate.
  - reflexivity.
  - exists self', wa', attrs. split; [exact E|].
    rewrite Hget, Hf, Ha. split; reflexivity.
Defined.

(** C2 as stated fails when the first configured code is the empty string:
    the field is attached while "en" is active, so the storage attribute of
    the first language is "title_en"; read with no active language, the
    getter looks for "title_none". *)
Lemma getter_misses_empty_first_language :
  ∃ self' wa',
    contribute_to_class (sample_descriptor [EmptyString]) "Article" "title"
      sample_world = (Ok self', wa')
    ∧ fields (data self') = Some ["title_en"]
    ∧ sample_instance !! "title_en" = Some (PStr "hello")
    ∧ __get__ self' (Some sample_instance) (activate None sample_world)
      = Raise (AttributeError "title_none").
Proof.
  destruct (attach_default (sample_descriptor [EmptyString]) "Article" "title"
              sample_world) as (self' & wa' & E & Hl & Hf & Hget & _).
  { split; reflexivity. }
  exists self', wa'. split; [exact E|]. split; [exact Hf|].
  split; [reflexivity|].
  rewrite Hget. unfold translated_attrgetter. rewrite Hl. reflexivity.
Qed.

(** C3.  For a descriptor with the default accessors and the languages
    ["en", "de"], writing the logical attribute of an instance while "de" is
    active sets the storage attribute generated for "de" and leaves the one
    generated for "en", and every other attribute, as it was. *)
Theorem setter_writes_active_language_only (self : TranslatedField)
    (cls name : string) (wa ws : World) (obj : Instance) (value : pyval) :
  default_accessors self →
  languages (data self) = ["en"; "de"] →
  get_language ws = Some "de" →
  ∃ self' wa' en_attr de_attr obj',
    contribute_to_class self cls name wa = (Ok self', wa')
    ∧ fields (data self') = Some [en_attr; de_attr]
    ∧ en_attr = to_attribute name (Some "en") wa
    ∧ de_attr = to_attribute name (Some "de") wa
    ∧ __set__ self' obj value ws = Ok obj'
    ∧ obj' !! de_attr = Some value
    ∧ en_attr ≠ de_attr
    ∧ obj' !! en_attr = obj !! en_attr
    ∧ ∀ attr, attr ≠ de_attr → obj' !! attr = obj !! attr.
Proof.
  intros Hdef Hlangs Hde.
  destruct (attach_default self cls name wa Hdef)
    as (self' & wa' & E & _ & Hf & _ & Hset).
  rewrite Hlangs in Hf. cbn in Hf.
  rewrite !to_attribute_explicit, !effective_language_nonempty in Hf by done.
  change (normalise "en") with "en" in Hf.
  change (normalise "de") with "de" in Hf.
  eexists self', wa', _, _, _. split; [done|]. split; [exact Hf|].
  split. { by rewrite to_attribute_explicit, effective_language_nonempty. }
  split. { by rewrite to_attribute_explicit, effective_language_nonempty. }
  split; [apply Hset|].
  rewrite to_attribute_active, Hde. change (normalise (Py.format _)) with "de".
  unfold setattr. split; [apply lookup_insert_eq|].
  split; [apply normalise_en_de|]. split.
  - apply lookup_insert_ne. intros H. by apply (normalise_en_de name).
  - intros attr H. by apply lookup_insert_ne.
Qed.

Lemma setter_writes_active_language_only_witness :
  ∃ self' wa' obj',
    contribute_to_class (sample_descriptor ["en"; "de"]) "Article" "title"
      sample_world = (Ok self', wa')
    ∧ fields (data self') = Some ["title_en"; "title_de"]
    ∧ __set__ self' sample_instance (PStr "neu")
        (activate (Some "de") sample_world) = Ok obj'
    ∧ obj' !! "title_de" = Some (PStr "neu")
    ∧ obj' !! "title_en" = Some (PStr "hello").
Proof.
  destruct (setter_writes_active_language_only
              (sample_descriptor ["en"; "de"]) "Article" "title" sample_world
              (activate (Some "de") sample_world) sample_instance (PStr "neu"))
    as (self' & wa' & en_attr & de_attr & obj' & E & Hf & Hen & Hde & Hset
        & Hnew & _ & Hold & _).
  - split; reflexivity.
  - reflexivity.
  - reflexivity.
  - exists self', wa', obj'. split; [exact E|].
    rewrite Hf, Hen, Hde. split; [reflexivity|]. split; [exact Hset|].
    rewrite Hde in Hnew. rewrite Hen in Hold. split; [exact Hnew|].
    transitivity (sample_instance !! "title_en"); [exact Hold|reflexivity].
Defined.

(** C9, as amended.  With the default setter and no active language, the
    value is stored under the mangled form of "name_None": the normal form
    of the name followed by "_none", which is "name_none" itself for a name
    already in normal form.  This is not the first configured language's
    storage attribute, which keeps its value, unless that language's code
    is empty or has the normal form "none". *)
Theorem setter_without_language (self : TranslatedField) (cls name : string)
    (wa ws : World) (obj : Instance) (value : pyval) :
  default_accessors self →
  get_language ws = None →
  let target := normalise name +:+ "_none" in
  ∃ self' wa',
    contribute_to_class self cls name wa = (Ok self', wa')
    ∧ __set__ self' obj value ws = Ok (<[target := value]> obj)
    ∧ target = to_attribute name (Some "None") ws
    ∧ (only_class name → target = name +:+ "_none")
    ∧ ∀ first others,
        languages (data self) = first :: others →
        first ≠ EmptyString →
        normalise first ≠ "none" →
        ∃ attr attrs,
          fields (data self') = Some (attr :: attrs)
          ∧ attr = to_attribute name (Some first) wa
          ∧ attr ≠ target
          ∧ <[target := value]> obj !! attr = obj !! attr.
Proof.
  intros Hdef Hnone target.
  destruct (attach_default self cls name wa Hdef)
    as (self' & wa' & E & _ & Hf & _ & Hset).
  exists self', wa'. split; [done|]. split; [|split; [|split]].
  - rewrite Hset, to_attribute_active, Hnone. reflexivity.
  - by rewrite to_attribute_explicit.
  - intros Hname. unfold target. by rewrite normalise_only_class.
  - intros first others Hlangs Hfirst Hnorm.
    rewrite Hlangs in Hf. cbn in Hf.
    assert (to_attribute name (Some first) wa ≠ target) as Hne.
    { rewrite to_attribute_explicit, effective_language_nonempty by done.
      unfold target. intros H%(inj (String.app _)). by injection H. }
    eexists _, _. split; [exact Hf|]. split; [done|]. split; [done|].
    by apply lookup_insert_ne.
Qed.

Lemma setter_without_language_witness :
  ∃ self' wa' attrs,
    contribute_to_class (sample_descriptor ["en"; "de"]) "Article" "title"
      sample_world = (Ok self', wa')
    ∧ fields (data self') = Some ("title_en" :: attrs)
    ∧ __set__ self' sample_instance (PStr "neu") (activate None sample_world)
      = Ok (<["title_none" := PStr "neu"]> sample_instance)
    ∧ <["title_none" := PStr "neu"]> sample_instance !! "title_en"
      = Some (PStr "hello").
Proof.
  destruct (setter_without_language (sample_descriptor ["en"; "de"]) "Article"
              "title" sample_world (activate None sample_world)
              sample_instance (PStr "neu"))
    as (self' & wa' & E & Hset & _ & _ & Hfirst).
  - split; reflexivity.
  - reflexivity.
  - destruct (Hfirst "en" ["de"]) as (attr & attrs & Hf & Ha & _ & Hold).
    + reflexivity.
    + discriminate.
    + discriminate.
    + exists self', wa', attrs. split; [exact E|].
      rewrite Hf, Ha. split; [reflexivity|]. split; [exact Hset|].
      rewrite Ha in Hold.
      transitivity (sample_instance !! "title_en"); [exact Hold|reflexivity].
Defined.

(** C9 as stated fails for a first language whose code is "none": written
    with no active language, the value lands in the storage attribute of
    that first language. *)
Lemma setter_hits_first_language_none :
  ∃ self' wa' obj',
    contribute_to_class (sample_descriptor ["none"; "de"]) "Article" "title"
      sample_world = (Ok self', wa')
    ∧ fields (data self') = Some ["title_none"; "title_de"]
    ∧ __set__ self' sample_instance (PStr "neu") (activate None sample_world)
      = Ok obj'
    ∧ obj' !! "title_none" = Some (PStr "neu").
Proof.
  destruct (attach_default (sample_descriptor ["none"; "de"]) "Article"
              "title" sample_world) as (self' & wa' & E & _ & Hf & _ & Hset).
  { split; reflexivity. }
  exists self', wa', (<["title_none" := PStr "neu"]> sample_instance).
  split; [exact E|]. split; [exact Hf|]. split; [apply Hset|].
  apply lookup_insert_eq.
Qed.

(** ** The keyword filter *)

Section Keywords.

Context {A R : Type}.
Implicit Types (fn : PyFunction A R) (kwargs : gmap string A).

Lemma unsupported_nonempty fn kwargs :
  unsupported fn kwargs ≠ ∅ ↔ ∃ key, key ∈ dom kwargs ∧ ¬ declares fn key.
Proof.
  unfold unsupported, declares. split.
  - intros [key Hkey]%set_choose_L. exists key.
    apply elem_of_difference in Hkey as [? Hno]. split; [done|].
    intros ?. apply Hno. by apply elem_of_list_to_set.
  - intros (key & Hin & Hno) Hempty.
    apply (not_elem_of_empty (C := gset string) key). rewrite <- Hempty.
    apply elem_of_difference. split; [done|].
    intros ?%elem_of_list_to_set. by apply Hno.
Qed.

Lemma filter_declared_insert fn kwargs (key : string) (value : A) :
  ¬ declares fn key →
  filter (λ kv, declares fn kv.1) (<[key := value]> kwargs)
  = filter (λ kv, declares fn kv.1) kwargs.
Proof.
  intros Hno. apply map_eq. intros k. apply option_eq. intros v.
  rewrite !map_lookup_filter_Some. cbn.
  destruct (decide (k = key)) as [->|Hne].
  - split; intros [_ H]; by destruct Hno.
  - by rewrite lookup_insert_ne.
Qed.

Lemma call_keyword_parameters fn (args : list A) kwargs :
  (∀ key k, (key, k) ∈ parameters fn →
     k = POSITIONAL_OR_KEYWORD ∨ k = KEYWORD_ONLY ∨ k = VAR_KEYWORD) →
  (∀ key, key ∈ dom kwargs → declares fn key) →
  call fn args kwargs = body fn args kwargs.
Proof.
  intros Hkinds Hdecl. unfold call. rewrite decide_True; [done|].
  intros key Hkey. apply Hdecl in Hkey. unfold declares in Hkey.
  apply list_elem_of_fmap in Hkey as ([key' k] & -> & Hin).
  unfold accepts_keyword. cbn.
  destruct (Hkinds _ _ Hin) as [->| [->| ->]]; [by left|by right; left|].
  right; right. apply list_elem_of_fmap. by exists (key', VAR_KEYWORD).
Qed.

End Keywords.

(** C8.  The helper calls the factory with the positional arguments and
    with exactly the supplied keywords that [inspect.signature] lists for
    it; it emits one [DeprecationWarning] if and only if some supplied
    keyword is not listed; a keyword that is not listed has no influence on
    the outcome of the call, and when every listed parameter can be passed
    by keyword, the call binds its keywords without a [TypeError]. *)
Theorem _optional_keywords_filters {A R} (fn : PyFunction A R)
    (args : list A) (kwargs : gmap string A) (w : World) :
  let r := _optional_keywords fn args kwargs w in
  let some_unsupported := ∃ key, key ∈ dom kwargs ∧ ¬ declares fn key in
  ∃ passed : gmap string A,
    r.1 = call fn args passed
    ∧ (∀ key value,
         passed !! key = Some value
         ↔ kwargs !! key = Some value ∧ declares fn key)
    ∧ (some_unsupported
       ↔ ∃ msg, warnings r.2
                = warnings w
                    ++ [{| category := "DeprecationWarning"; message := msg |}])
    ∧ (¬ some_unsupported ↔ r.2 = w)
    ∧ (∀ key value,
         ¬ declares fn key →
         (_optional_keywords fn args (<[key := value]> kwargs) w).1 = r.1)
    ∧ ((∀ key k, (key, k) ∈ parameters fn →
          k = POSITIONAL_OR_KEYWORD ∨ k = KEYWORD_ONLY ∨ k = VAR_KEYWORD) →
       r.1 = body fn args passed).
Proof.
  intros r some_unsupported.
  exists (filter (λ kv, declares fn kv.1) kwargs).
  unfold r. rewrite _optional_keywords_run. cbn [fst snd].
  assert (∀ l (x : Warning), l ++ [x] ≠ l) as Hgrow.
  { intros l x H%(f_equal length). rewrite length_app in H. cbn in H. lia. }
  split; [done|]. split; [|split; [|split; [|split]]].
  - intros key value. by rewrite map_lookup_filter_Some.
  - unfold some_unsupported. rewrite <- unsupported_nonempty.
    case_decide as Hdec; split; try done.
    + by eexists.
    + by intros [msg H%eq_sym%Hgrow].
  - unfold some_unsupported. rewrite <- unsupported_nonempty.
    case_decide as Hdec; split.
    + intros H. by destruct H.
    + intros H%(f_equal warnings). cbn in H. by apply Hgrow in H.
    + done.
    + intros _ H. by apply H.
  - intros key value Hno. rewrite _optional_keywords_run. cbn [fst].
    by rewrite filter_declared_insert.
  - intros Hkinds. apply call_keyword_parameters; [done|].
    intros key [value Hkey]%elem_of_dom.
    by apply map_lookup_filter_Some in Hkey as [_ ?].
Qed.

(** * Further properties *)

(** ** More on the attribute namer *)

Section NamerMore.

Import Py.

Lemma lower_char_idem (c : ascii) : lower_char (lower_char c) = lower_char c.
Proof. destruct c as [[] [] [] [] [] [] [] []]; reflexivity. Qed.

Lemma lower_idem (s : string) : lower (lower s) = lower s.
Proof.
  induction s as [|c s IH]; [done|]. cbn. by rewrite lower_char_idem, IH.
Qed.

Lemma lower_nonempty (s : string) : s ≠ EmptyString → lower s ≠ EmptyString.
Proof. by destruct s. Qed.

Lemma normalise_nonempty (s : string) :
  s ≠ EmptyString → normalise s ≠ EmptyString.
Proof.
  destruct s as [|c s]; [done|]. intros _. unfold normalise, re_sub. cbn.
  by destruct (in_class (lower_char c)).
Qed.

Lemma normalise_idem (s : string) : normalise (normalise s) = normalise s.
Proof. apply normalise_only_class, normalise_class. Qed.

Lemma normalise_lower (s : string) : normalise (lower s) = normalise s.
Proof. unfold normalise. by rewrite lower_idem. Qed.

Lemma length_re_sub_scan (b : bool) (s : string) :
  (String.length (re_sub_scan b s) ≤ String.length s)%nat.
Proof.
  revert b. induction s as [|c s IH]; intros b; [done|]. cbn.
  destruct (in_class c); [|destruct b]; cbn;
    [specialize (IH false)|specialize (IH true)|specialize (IH true)]; lia.
Qed.

Lemma to_attribute_of_active (name language : string) (w : World) :
  get_language w = Some language →
  to_attribute name None w = to_attribute name (Some language) w.
Proof.
  intros H. unfold to_attribute, or_, truthy. rewrite H.
  by case_decide; subst.
Qed.

End NamerMore.

(** X1.  The namer sees its inputs only through their normal forms: for a
    non-empty language code, replacing the name and the code by their normal
    forms, or by their lower-case forms, gives the same attribute name. *)
Theorem to_attribute_of_normal_forms (name language : string) (w : World) :
  language ≠ EmptyString →
  to_attribute (normalise name) (Some (normalise language)) w
  = to_attribute name (Some language) w
  ∧ to_attribute (Py.lower name) (Some (Py.lower language)) w
    = to_attribute name (Some language) w.
Proof.
  intros Hne. rewrite !to_attribute_explicit.
  rewrite !effective_language_nonempty
    by auto using normalise_nonempty, lower_nonempty.
  by rewrite !normalise_idem, !normalise_lower.
Qed.

Lemma to_attribute_of_normal_forms_witness :
  to_attribute "article_title" (Some "pt_br") sample_world
  = to_attribute "Article Title" (Some "pt-BR") sample_world
  ∧ to_attribute "article title" (Some "pt-br") sample_world
    = to_attribute "Article Title" (Some "pt-BR") sample_world.
Proof.
  exact (to_attribute_of_normal_forms "Article Title" "pt-BR" sample_world
           ltac:(discriminate)).
Defined.

(** X2.  The namer does not keep the boundary between name and language:
    moving an underscore-separated part from the end of the name to the
    front of the language code gives the same attribute name, so different
    pairs of name and language share storage attributes. *)
Theorem to_attribute_boundary_shift (name part language : string)
    (w : World) :
  language ≠ EmptyString →
  to_attribute (name +:+ "_" +:+ part) (Some language) w
  = to_attribute name (Some (part +:+ "_" +:+ language)) w.
Proof.
  intros Hne. rewrite !to_attribute_explicit.
  rewrite !effective_language_nonempty; [|by destruct part|done].
  by rewrite !normalise_join, !app_assoc_str.
Qed.

Lemma to_attribute_boundary_shift_witness :
  to_attribute "title_zh" (Some "hans") sample_world
  = to_attribute "title" (Some "zh_hans") sample_world.
Proof.
  exact (to_attribute_boundary_shift "title" "zh" "hans" sample_world
           ltac:(discriminate)).
Defined.

(** X3.  An attribute name is never empty, and replacing the runs never
    makes it longer than the lower-cased text "name_language" they are
    replaced in; the language is the explicit code, or the active language,
    or the text "None". *)
Theorem to_attribute_length (name : string) (language_code : option string)
    (w : World) :
  let language := Py.format (Py.or_ language_code (get_language w)) in
  to_attribute name language_code w ≠ EmptyString
  ∧ (String.length (to_attribute name language_code w)
     ≤ String.length (Py.lower (name +:+ "_" +:+ language)))%nat.
Proof.
  intros language. split.
  - change (to_attribute name language_code w)
      with (normalise (name +:+ "_" +:+ language)).
    rewrite normalise_join. by destruct (normalise name).
  - apply length_re_sub_scan.
Qed.

(** ** More on reading and writing *)

Section AccessMore.

Lemma truthy_Some (o : option string) :
  Py.truthy o = true → ∃ language, o = Some language ∧ language ≠ EmptyString.
Proof.
  destruct o as [language|]; [|done]. cbn. case_decide; [done|]. eauto.
Qed.

(** With an active language the default getter reads that language's
    attribute. *)
Lemma getter_active (name : string) (field : TranslatedFieldData)
    (language : string) (w : World) (obj : Instance) :
  get_language w = Some language →
  language ≠ EmptyString →
  translated_attrgetter name field w obj
  = getattr obj (normalise name +:+ "_" +:+ normalise language).
Proof.
  intros Hl Hne. unfold translated_attrgetter, Py.truthy. rewrite Hl.
  case_decide; [done|].
  by rewrite to_attribute_explicit, effective_language_nonempty.
Qed.

Lemma setter_active (name language : string) (w : World) :
  get_language w = Some language →
  language ≠ EmptyString →
  to_attribute name None w = normalise name +:+ "_" +:+ normalise language.
Proof.
  intros Hl Hne. rewrite (to_attribute_of_active _ _ _ Hl).
  by rewrite to_attribute_explicit, effective_language_nonempty.
Qed.

End AccessMore.

(** X4.  Through a descriptor with the default accessors, a value written
    while a language is active is the value read back while the same
    language is active. *)
Theorem set_then_get (self : TranslatedField) (cls name : string)
    (wa w : World) (obj : Instance) (value : pyval) :
  default_accessors self →
  Py.truthy (get_language w) = true →
  ∃ self' wa' obj',
    contribute_to_class self cls name wa = (Ok self', wa')
    ∧ __set__ self' obj value w = Ok obj'
    ∧ __get__ self' (Some obj') w = Ok (inr value).
Proof.
  intros Hdef (language & Hl & Hne)%truthy_Some.
  destruct (attach_default self cls name wa Hdef)
    as (self' & wa' & E & _ & _ & Hget & Hset).
  eexists self', wa', _. split; [done|]. split; [apply Hset|].
  rewrite Hget, (getter_active _ _ _ _ _ Hl Hne), (setter_active _ _ _ Hl Hne).
  unfold getattr, setattr. by rewrite lookup_insert_eq.
Qed.

Lemma set_then_get_witness :
  ∃ self' wa' obj',
    contribute_to_class (sample_descriptor ["en"; "de"]) "Article" "title"
      sample_world = (Ok self', wa')
    ∧ __set__ self' sample_instance (PStr "neu") sample_world = Ok obj'
    ∧ __get__ self' (Some obj') sample_world = Ok (inr (PStr "neu")).
Proof.
  apply (set_then_get (sample_descriptor ["en"; "de"]) "Article" "title"
           sample_world sample_world sample_instance (PStr "neu")).
  - split; reflexivity.
  - reflexivity.
Defined.

(** X5.  A value written while one language is active is seen by a read
    under another active language exactly when the two language codes have
    the same normal form; otherwise the read gives what it gave before the
    write.  The configured languages play no role. *)
Theorem write_seen_by_same_normal_form (self : TranslatedField)
    (cls name : string) (wa w_write w_read : World) (obj : Instance)
    (value : pyval) (written read : string) :
  default_accessors self →
  get_language w_write = Some written → written ≠ EmptyString →
  get_language w_read = Some read → read ≠ EmptyString →
  ∃ self' wa' obj',
    contribute_to_class self cls name wa = (Ok self', wa')
    ∧ __set__ self' obj value w_write = Ok obj'
    ∧ __get__ self' (Some obj') w_read
      = if decide (normalise written = normalise read)
        then Ok (inr value)
        else __get__ self' (Some obj) w_read.
Proof.
  intros Hdef Hw Hwne Hr Hrne.
  destruct (attach_default self cls name wa Hdef)
    as (self' & wa' & E & _ & _ & Hget & Hset).
  eexists self', wa', _. split; [done|]. split; [apply Hset|].
  rewrite !Hget, !(getter_active _ _ _ _ _ Hr Hrne),
    (setter_active _ _ _ Hw Hwne).
  unfold getattr, setattr. case_decide as Hnf.
  - by rewrite Hnf, lookup_insert_eq.
  - rewrite lookup_insert_ne; [done|].
    intros H%(inj (String.app _)). by injection H.
Qed.

Lemma write_seen_by_same_normal_form_witness :
  ∃ self' wa' obj',
    contribute_to_class (sample_descriptor ["en"; "pt-br"]) "Article" "title"
      sample_world = (Ok self', wa')
    ∧ __set__ self' sample_instance (PStr "novo")
        (activate (Some "pt-br") sample_world) = Ok obj'
    ∧ __get__ self' (Some obj') (activate (Some "pt_BR") sample_world)
      = Ok (inr (PStr "novo"))
    ∧ __get__ self' (Some obj') (activate (Some "en") sample_world)
      = __get__ self' (Some sample_instance) (activate (Some "en") sample_world).
Proof.
  destruct (write_seen_by_same_normal_form
              (sample_descriptor ["en"; "pt-br"]) "Article" "title"
              sample_world (activate (Some "pt-br") sample_world)
              (activate (Some "pt_BR") sample_world) sample_instance
              (PStr "novo") "pt-br" "pt_BR")
    as (self' & wa' & obj' & E & Hset & Hget);
    [split; reflexivity|reflexivity|discriminate|reflexivity|discriminate|].
  destruct (write_seen_by_same_normal_form
              (sample_descriptor ["en"; "pt-br"]) "Article" "title"
              sample_world (activate (Some "pt-br") sample_world)
              (activate (Some "en") sample_world) sample_instance
              (PStr "novo") "pt-br" "en")
    as (self2 & wa2 & obj2 & E2 & Hset2 & Hget2);
    [split; reflexivity|reflexivity|discriminate|reflexivity|discriminate|].
  rewrite E in E2. injection E2 as <- <-.
  rewrite Hset in Hset2. injection Hset2 as <-.
  exists self', wa', obj'. split; [exact E|]. split; [exact Hset|].
  split; [exact Hget|exact Hget2].
Defined.

(** X6.  With an active language the default getter never falls back: it
    reads the attribute named after the name and the active language, also
    when that language is not configured or no language is configured, and
    when the instance has no such attribute the read raises
    [AttributeError] for that attribute. *)
Theorem getter_reads_active_language (self : TranslatedField)
    (cls name : string) (wa w : World) (obj : Instance) (language : string) :
  default_accessors self →
  get_language w = Some language → language ≠ EmptyString →
  let attr := normalise name +:+ "_" +:+ normalise language in
  ∃ self' wa',
    contribute_to_class self cls name wa = (Ok self', wa')
    ∧ __get__ self' (Some obj) w
      = match obj !! attr with
        | Some v => Ok (inr v)
        | None => Raise (AttributeError attr)
        end.
Proof.
  intros Hdef Hl Hne attr.
  destruct (attach_default self cls name wa Hdef)
    as (self' & wa' & E & _ & _ & Hget & _).
  exists self', wa'. split; [done|].
  rewrite Hget, (getter_active _ _ _ _ _ Hl Hne). unfold getattr. fold attr.
  by destruct (obj !! attr).
Qed.

Lemma getter_reads_active_language_witness :
  ∃ self' wa',
    contribute_to_class (sample_descriptor ["en"; "de"]) "Article" "title"
      sample_world = (Ok self', wa')
    ∧ __get__ self' (Some sample_instance) (activate (Some "fr") sample_world)
      = Raise (AttributeError "title_fr").
Proof.
  destruct (getter_reads_active_language (sample_descriptor ["en"; "de"])
              "Article" "title" sample_world
              (activate (Some "fr") sample_world) sample_instance "fr")
    as (self' & wa' & E & Hget);
    [split; reflexivity|reflexivity|discriminate|].
  exists self', wa'. split; [exact E|]. rewrite Hget. reflexivity.
Defined.

(** X7.  The asymmetry of the default accessors: with no active language,
    a descriptor whose first language code is non-empty and does not have
    the normal form "none" does not read back what was just written; the
    read gives what it gave before the write. *)
Theorem write_without_language_not_read (self : TranslatedField)
    (cls name : string) (wa w : World) (obj : Instance) (value : pyval)
    (first : string) (others : list string) :
  default_accessors self →
  languages (data self) = first :: others →
  first ≠ EmptyString →
  normalise first ≠ "none" →
  get_language w = None →
  ∃ self' wa' obj',
    contribute_to_class self cls name wa = (Ok self', wa')
    ∧ __set__ self' obj value w = Ok obj'
    ∧ __get__ self' (Some obj') w = __get__ self' (Some obj) w.
Proof.
  intros Hdef Hlangs Hfirst Hnorm Hnone.
  destruct (attach_default self cls name wa Hdef)
    as (self' & wa' & E & Hl & _ & Hget & Hset).
  eexists self', wa', _. split; [done|]. split; [apply Hset|].
  rewrite !Hget. unfold translated_attrgetter. rewrite Hnone, Hl, Hlangs. cbn.
  rewrite to_attribute_active, Hnone, to_attribute_explicit,
    effective_language_nonempty by done.
  unfold getattr, setattr. rewrite lookup_insert_ne; [done|].
  intros H%(inj (String.app _)). injection H as H. by apply Hnorm.
Qed.

Lemma write_without_language_not_read_witness :
  ∃ self' wa' obj',
    contribute_to_class (sample_descriptor ["en"; "de"]) "Article" "title"
      sample_world = (Ok self', wa')
    ∧ __set__ self' sample_instance (PStr "neu") (activate None sample_world)
      = Ok obj'
    ∧ __get__ self' (Some obj') (activate None sample_world)
      = Ok (inr (PStr "hello")).
Proof.
  destruct (write_without_language_not_read (sample_descriptor ["en"; "de"])
              "Article" "title" sample_world (activate None sample_world)
              sample_instance (PStr "neu") "en" ["de"])
    as (self' & wa' & obj' & E & Hset & Hget);
    [split; reflexivity|reflexivity|discriminate|discriminate|reflexivity|].
  destruct (attach_default (sample_descriptor ["en"; "de"]) "Article" "title"
              sample_world) as (self2 & wa2 & E2 & Hl & _ & Hget2 & _);
    [split; reflexivity|].
  rewrite E in E2. injection E2 as <- <-.
  exists self', wa', obj'. split; [exact E|]. split; [exact Hset|].
  rewrite Hget, Hget2. unfold translated_attrgetter. rewrite Hl. reflexivity.
Defined.

(** ** More on construction *)

Lemma __init___run (field : Field.t)
    (specific : option (gmap string (gmap string pyval)))
    (languages_arg : option (list string))
    (attrgetter : option (PyFunction farg Getter))
    (attrsetter : option (PyFunction farg Setter)) (w : World) :
  let langs :=
    match languages_arg with
    | Some (l :: ls) => l :: ls
    | _ => (LANGUAGES w).*1
    end in
  __init__ field specific languages_arg attrgetter attrsetter w
  = (Ok {| data := {| _field := field;
                      _specific := default ∅ specific;
                      languages := langs;
                      creation_counter := Field_creation_counter w;
                      fields := None;
                      short_description := None |};
           _attrgetter := default translated_attrgetter_def attrgetter;
           _attrsetter := default translated_attrsetter_def attrsetter;
           _getter := None;
           _setter := None |},
     set_Field_creation_counter
       (Field_creation_counter w + Z.of_nat (length langs)) w).
Proof. reflexivity. Qed.

(** X9.  When neither an explicit language list (or an empty one) nor a
    configured language exists, the descriptor has no languages: it
    reserves no counter value, attaching it registers no field, and a read
    with no active language raises [IndexError]. *)
Theorem descriptor_without_languages (field : Field.t)
    (specific : option (gmap string (gmap string pyval)))
    (languages_arg : option (list string)) (cls name : string)
    (w wa wr : World) (obj : Instance) :
  LANGUAGES w = [] →
  languages_arg = None ∨ languages_arg = Some [] →
  get_language wr = None →
  ∃ self w1 self' wa',
    __init__ field specific languages_arg None None w = (Ok self, w1)
    ∧ languages (data self) = []
    ∧ Field_creation_counter w1 = Field_creation_counter w
    ∧ contribute_to_class self cls name wa = (Ok self', wa')
    ∧ fields (data self') = Some []
    ∧ contributed (get_class cls wa') = contributed (get_class cls wa)
    ∧ __get__ self' (Some obj) wr = Raise IndexError.
Proof.
  intros HL Harg Hnone.
  assert (∃ self w1,
            __init__ field specific languages_arg None None w = (Ok self, w1)
            ∧ languages (data self) = []
            ∧ Field_creation_counter w1 = Field_creation_counter w
            ∧ default_accessors self) as (self & w1 & Einit & Hl & Hc & Hdef).
  { eexists _, _. split; [apply __init___run|]. cbn. rewrite HL.
    repeat split; [by destruct Harg as [->| ->]|].
    destruct Harg as [->| ->]; cbn; lia. }
  destruct (attach_default self cls name wa Hdef)
    as (self' & wa' & E & Hl' & Hf & Hget & _).
  destruct (contribute_to_class_state self cls name wa) as (_ & _ & Hcon & _).
  rewrite E in Hcon. cbn [snd] in Hcon.
  unfold storage_fields in Hcon. rewrite Hl, app_nil_r in Hcon. cbn in Hcon.
  exists self, w1, self', wa'.
  split; [done|]. split; [done|]. split; [done|]. split; [done|].
  split; [by rewrite Hf, Hl|]. split; [|].
  - exact Hcon.
  - rewrite Hget. unfold translated_attrgetter. by rewrite Hnone, Hl', Hl.
Qed.

Lemma descriptor_without_languages_witness :
  let w := {| get_language := None; LANGUAGES := [];
              Field_creation_counter := 7; _show_language_code := None;
              warnings := []; classes := ∅ |} in
  ∃ self w1 self' wa',
    __init__ sample_field None (Some []) None None w = (Ok self, w1)
    ∧ Field_creation_counter w1 = 7
    ∧ contribute_to_class self "Article" "title" w1 = (Ok self', wa')
    ∧ fields (data self') = Some []
    ∧ __get__ self' (Some sample_instance) w1 = Raise IndexError.
Proof.
  intros w.
  destruct (descriptor_without_languages sample_field None (Some [])
              "Article" "title" w
              (__init__ sample_field None (Some []) None None w).2
              (__init__ sample_field None (Some []) None None w).2
              sample_instance)
    as (self & w1 & self' & wa' & Einit & _ & Hc & E & Hf & _ & Hget);
    [reflexivity|by right|reflexivity|].
  exists self, w1, self', wa'. rewrite Einit in E, Hget. cbn [snd] in E, Hget.
  by repeat split.
Defined.

(** X10.  Two descriptors constructed one after the other reserve disjoint
    blocks of counter values in the order of construction: wherever and in
    whatever order they are attached, every field generated for the first
    has a smaller counter value than every field generated for the
    second. *)
Theorem construction_order_kept (field1 field2 : Field.t)
    (specific1 specific2 : option (gmap string (gmap string pyval)))
    (languages1 languages2 : option (list string))
    (attrgetter1 attrgetter2 : option (PyFunction farg Getter))
    (attrsetter1 attrsetter2 : option (PyFunction farg Setter))
    (w : World) (cls1 name1 cls2 name2 : string) (wa1 wa2 : World) :
  ∃ self1 w1 self2 w2,
    __init__ field1 specific1 languages1 attrgetter1 attrsetter1 w
    = (Ok self1, w1)
    ∧ __init__ field2 specific2 languages2 attrgetter2 attrsetter2 w1
      = (Ok self2, w2)
    ∧ ∃ new1 new2,
        contributed (get_class cls1 (contribute_to_class self1 cls1 name1 wa1).2)
        = contributed (get_class cls1 wa1) ++ new1
        ∧ contributed
            (get_class cls2 (contribute_to_class self2 cls2 name2 wa2).2)
          = contributed (get_class cls2 wa2) ++ new2
        ∧ ∀ f1 f2, f1 ∈ new1 → f2 ∈ new2 →
            Field.creation_counter f1.2 < Field.creation_counter f2.2.
Proof.
  eexists _, _, _, _. split; [apply __init___run|].
  split; [apply __init___run|].
  match goal with
  | |- context [contribute_to_class ?s1 cls1 _ _] => set (self1 := s1)
  end.
  match goal with
  | |- context [contribute_to_class ?s2 cls2 _ _] => set (self2 := s2)
  end.
  destruct (contribute_to_class_state self1 cls1 name1 wa1) as (_ & _ & H1 & _).
  destruct (contribute_to_class_state self2 cls2 name2 wa2) as (_ & _ & H2 & _).
  eexists _, _. split; [exact H1|]. split; [exact H2|].
  intros f1 f2 [i Hi]%list_elem_of_lookup [j Hj]%list_elem_of_lookup.
  rewrite storage_fields_lookup in Hi, Hj.
  destruct (languages (data self1) !! i) eqn:Ei; [|done].
  destruct (languages (data self2) !! j) eqn:Ej; [|done].
  apply lookup_lt_Some in Ei. cbn in Hi, Hj. simplify_eq. cbn in *. lia.
Qed.

(** ** More on the display toggle and the admin views *)

Section ToggleMore.

Lemma with_show_language_code_run {A} (show : bool) (block : M A) (w : World) :
  with_ (show_language_code show) block w
  = match block (set_show_language_code (Some show) w) with
    | (Ok a, w2) => (Ok a, set_show_language_code (_show_language_code w) w2)
    | (Raise e, w2) => (Raise e, w2)
    end.
Proof.
  unfold with_. rewrite show_language_code_enter_sets.
  by destruct (block _) as [[a|e] w2].
Qed.

(** The text of a value depends on the state only through the toggle. *)
Lemma str_same_toggle (capfirst : string → string) (w w' : World) (v : pyval) :
  _show_language_code w' = _show_language_code w →
  str capfirst w' v = str capfirst w v.
Proof.
  intros H. induction v as [s|base IH language_code|id text]; cbn; try done.
  unfold verbose_name_fn, ContextVar_get. by rewrite H, IH.
Qed.

End ToggleMore.

(** X11.  Scopes nest.  Inside the inner scope the toggle has the inner
    value; when the inner block has ended normally, the rest of the outer
    block runs with the outer value, whatever the inner block did to the
    toggle; and after the outer scope the toggle has the value it had
    before. *)
Theorem show_language_code_scopes_nest {A B} (outer inner : bool) (block : M A)
    (rest : A → M B) (w : World) :
  ∃ w1,
    _show_language_code w1 = Some inner
    ∧ ∀ a w2, block w1 = (Ok a, w2) →
        ∃ w3,
          _show_language_code w3 = Some outer
          ∧ with_ (show_language_code outer)
              (a ← with_ (show_language_code inner) block; rest a) w
            = match rest a w3 with
              | (Ok b, w4) =>
                  (Ok b, set_show_language_code (_show_language_code w) w4)
              | (Raise e, w4) => (Raise e, w4)
              end.
Proof.
  exists (set_show_language_code (Some inner)
            (set_show_language_code (Some outer) w)).
  split; [done|]. intros a w2 Hblock.
  exists (set_show_language_code (Some outer) w2). split; [done|].
  rewrite with_show_language_code_run. unfold mbind, M_bind, bind.
  by rewrite with_show_language_code_run, Hblock.
Qed.

(** X12.  An exception in the innermost block of nested scopes leaves both
    scopes without any reset: the with statements raise the same exception
    and the state, the toggle included, stays as the block left it. *)
Theorem show_language_code_nested_exception {A} (outer inner : bool)
    (block : M A) (w w2 : World) (e : exn) :
  block (set_show_language_code (Some inner)
           (set_show_language_code (Some outer) w)) = (Raise e, w2) →
  with_ (show_language_code outer) (with_ (show_language_code inner) block) w
  = (Raise e, w2).
Proof.
  intros H. by rewrite !with_show_language_code_run, H.
Qed.

Lemma show_language_code_nested_exception_witness :
  let after :=
    with_ (show_language_code true)
      (with_ (show_language_code false) (mthrow (Exception 0) : M unit))
      sample_world in
  after.1 = Raise (Exception 0) ∧ _show_language_code after.2 = Some false.
Proof.
  intros after. unfold after.
  rewrite (show_language_code_nested_exception true false
             (mthrow (Exception 0)) sample_world
             (set_show_language_code (Some false)
                (set_show_language_code (Some true) sample_world))
             (Exception 0) eq_refl).
  split; reflexivity.
Defined.

(** X13.  An admin view whose base view returns a response and leaves the
    toggle alone: a response with a [render] method is rendered while the
    toggle is active, so that a generated label rendered then carries its
    language code; a response without it is not rendered; the view returns
    the response of the base view and puts the toggle back. *)
Theorem admin_view_renders_in_scope {Response : Type}
    (has_render : Response → bool) (render : Response → M unit)
    (super_view : M Response) (w w2 : World) (response : Response) :
  super_view (set_show_language_code (Some true) w) = (Ok response, w2) →
  _show_language_code w2 = Some true →
  (∀ capfirst base language_code,
     str capfirst w2 (_verbose_name_maybe_language_code base language_code)
     = capfirst (str capfirst w2 base) +:+ " [" +:+ language_code +:+ "]")
  ∧ changelist_view has_render render super_view w
    = (if has_render response
       then match render response w2 with
            | (Ok _, w3) =>
                (Ok response,
                 set_show_language_code (_show_language_code w) w3)
            | (Raise e, w3) => (Raise e, w3)
            end
       else (Ok response, set_show_language_code (_show_language_code w) w2))
  ∧ changeform_view has_render render super_view w
    = changelist_view has_render render super_view w.
Proof.
  intros Hview Htoggle. split; [|split; [|done]].
  - intros capfirst base language_code. cbn.
    unfold verbose_name_fn, ContextVar_get. by rewrite Htoggle.
  - unfold changelist_view, view_with_language_codes.
    rewrite with_show_language_code_run. unfold mbind, M_bind, bind.
    rewrite Hview. destruct (has_render response); [|done].
    by destruct (render response w2) as [[[]|e] w3].
Qed.

Lemma admin_view_renders_in_scope_witness :
  changelist_view (λ _ : unit, true) (λ _, mret tt) (mret tt) sample_world
  = (Ok tt, sample_world).
Proof.
  destruct (admin_view_renders_in_scope (λ _ : unit, true) (λ _, mret tt)
              (mret tt) sample_world
              (set_show_language_code (Some true) sample_world) tt
              eq_refl eq_refl) as (_ & -> & _).
  reflexivity.
Defined.

(** X14.  After an admin view that returns normally, every label renders
    as it did before the view was entered: the language codes shown during
    the view do not leak into later use. *)
Theorem admin_view_leaves_labels {Response : Type}
    (has_render : Response → bool) (render : Response → M unit)
    (super_view : M Response) (w w' : World) (response : Response)
    (capfirst : string → string) (label : pyval) :
  changelist_view has_render render super_view w = (Ok response, w') →
  str capfirst w' label = str capfirst w label.
Proof.
  intros H. apply str_same_toggle.
  by apply (with_show_language_code_restores _ _ _ _ _ H).
Qed.

Lemma admin_view_leaves_labels_witness :
  let w := set_show_language_code (Some false) sample_world in
  let after :=
    changelist_view (λ _ : unit, true) (λ _, mret tt) (mret tt) w in
  after.1 = Ok tt
  ∧ str capfirst_ascii after.2
      (_verbose_name_maybe_language_code (PStr "title") "en")
    = "title".
Proof.
  intros w after. split; [reflexivity|].
  assert (after = (Ok tt, after.2)) as H by reflexivity.
  rewrite (admin_view_leaves_labels (λ _ : unit, true) (λ _, mret tt)
             (mret tt) w after.2 tt capfirst_ascii
             (_verbose_name_maybe_language_code (PStr "title") "en") H).
  reflexivity.
Defined.

(** ** More on the keyword filter and custom factories *)

Section FactoriesMore.

(** Attaching, up to the calls of the two factories. *)
Lemma contribute_to_class_run (self : TranslatedField) (cls name : string)
    (wa : World) :
  let self_data := attached_data (data self) name wa in
  let kw : gmap string farg := {[ "field" := AField self_data ]} in
  ∃ w2,
    warnings w2 = warnings wa
    ∧ contribute_to_class self cls name wa
      = (getter ← _optional_keywords (_attrgetter self) [AName name] kw;
         setter ← _optional_keywords (_attrsetter self) [AName name] kw;
         mret {| data := self_data;
                 _attrgetter := _attrgetter self;
                 _attrsetter := _attrsetter self;
                 _getter := Some getter;
                 _setter := Some setter |}) w2.
Proof.
  intros self_data kw.
  destruct (for_contribute_storage_field (data self) cls name
              (languages (data self)) 0 [] wa)
    as (w1 & Hrun & _ & Hw & _).
  exists (set_class cls
            {| contributed := contributed (get_class cls w1);
               descriptors := descriptors (get_class cls w1) ++ [name] |}
            w1).
  split; [exact Hw|].
  unfold contribute_to_class, Field.deconstruct. cbv beta iota zeta.
  unfold mbind at 1 2, M_bind at 1 2, bind at 1 2.
  fold (base_label (data self) name). by rewrite Hrun.
Qed.

Lemma sorted_singleton (key : string) : sorted {[ key ]} = [key].
Proof. unfold sorted. by rewrite elements_singleton. Qed.

Lemma call_factory_keywords {R} (fn : PyFunction farg R) (args : list farg)
    (self : TranslatedFieldData) (name : string) (w : World) :
  (declares fn "field" → accepts_keyword fn "field") →
  call fn args (factory_keywords fn self name w)
  = body fn args (factory_keywords fn self name w).
Proof.
  intros Hacc. unfold call. rewrite decide_True; [done|].
  intros key [v Hkey]%elem_of_dom. unfold factory_keywords in Hkey.
  apply map_lookup_filter_Some in Hkey as [Hkey Hdecl].
  apply lookup_singleton_Some in Hkey as [<- _]. by apply Hacc.
Qed.

End FactoriesMore.

(** X15.  When some supplied keyword is not in the signature, the warning
    text is the function's name, " has unsupported arguments: ", and the
    names of exactly the supplied keywords that are not in the signature,
    each once, in ascending order, separated by ", ". *)
Theorem warning_names_unsupported_keywords {A R} (fn : PyFunction A R)
    (args : list A) (kwargs : gmap string A) (w : World) :
  (∃ key, key ∈ dom kwargs ∧ ¬ declares fn key) →
  ∃ keys,
    warnings (_optional_keywords fn args kwargs w).2
    = warnings w
        ++ [{| category := "DeprecationWarning";
               message := __name__ fn +:+ " has unsupported arguments: "
                          +:+ join ", " keys |}]
    ∧ Sorted String.le keys
    ∧ NoDup keys
    ∧ ∀ key, key ∈ keys ↔ key ∈ dom kwargs ∧ ¬ declares fn key.
Proof.
  intros Hsome%unsupported_nonempty.
  exists (sorted (unsupported fn kwargs)).
  rewrite _optional_keywords_run. cbn [snd]. rewrite decide_True by done.
  split; [done|]. unfold sorted. split; [apply (Sorted_merge_sort _)|].
  split.
  - rewrite merge_sort_Permutation. apply NoDup_elements.
  - intros key. rewrite merge_sort_Permutation, elem_of_elements.
    unfold unsupported, declares.
    rewrite elem_of_difference, elem_of_list_to_set. done.
Qed.

Lemma warning_names_unsupported_keywords_witness :
  let fn : PyFunction nat nat :=
    {| __name__ := "factory";
       parameters := [("name", POSITIONAL_OR_KEYWORD)];
       body := λ _ _, Ok 0%nat |} in
  ∃ keys,
    warnings
      (_optional_keywords fn [] {[ "field" := 1%nat; "extra" := 2%nat ]}
         sample_world).2
    = [{| category := "DeprecationWarning";
          message := "factory has unsupported arguments: " +:+ join ", " keys |}]
    ∧ Sorted String.le keys
    ∧ ∀ key, key ∈ keys ↔ key ∈ dom ({[ "field" := 1%nat; "extra" := 2%nat ]}
                                       : gmap string nat)
                          ∧ ¬ declares fn key.
Proof.
  intros fn.
  destruct (warning_names_unsupported_keywords fn []
              {[ "field" := 1%nat; "extra" := 2%nat ]} sample_world)
    as (keys & Hw & Hs & _ & Hk).
  - exists "field". split.
    + apply elem_of_dom. by eexists.
    + unfold declares. cbn. by intros [= ]%list_elem_of_singleton.
  - exists keys. split; [exact Hw|]. split; [exact Hs|exact Hk].
Defined.

(** X16.  A custom getter factory whose signature has no parameter named
    "field" still gives an attached descriptor: the factory is called with
    the name alone, its result becomes the getter, and one
    [DeprecationWarning] that names "field" is emitted. *)
Theorem factory_without_field_parameter (self : TranslatedField)
    (cls name : string) (wa : World) (getter : Getter) :
  _attrsetter self = translated_attrsetter_def →
  ¬ declares (_attrgetter self) "field" →
  call (_attrgetter self) [AName name] ∅ = Ok getter →
  ∃ self' wa',
    contribute_to_class self cls name wa = (Ok self', wa')
    ∧ _getter self' = Some getter
    ∧ _setter self' = Some (translated_attrsetter name (data self'))
    ∧ warnings wa'
      = warnings wa
          ++ [{| category := "DeprecationWarning";
                 message := __name__ (_attrgetter self)
                            +:+ " has unsupported arguments: field" |}].
Proof.
  intros Hs Hno Hcall.
  destruct (contribute_to_class_run self cls name wa) as (w2 & Hw & ->).
  unfold mbind at 1, M_bind at 1, bind at 1.
  rewrite _optional_keywords_run.
  rewrite map_filter_singleton_False by done. rewrite Hcall.
  assert (unsupported (_attrgetter self)
            ({[ "field" := AField (attached_data (data self) name wa) ]}
               : gmap string farg) = {[ "field" ]}) as ->.
  { unfold unsupported. rewrite dom_singleton_L.
    apply set_eq. intros key. rewrite elem_of_difference, elem_of_singleton.
    split; [by intros [-> _]|]. intros ->. split; [done|].
    by intros ?%elem_of_list_to_set. }
  rewrite decide_True; last first.
  { intros H. apply (not_elem_of_empty (C := gset string) "field").
    rewrite <- H. by apply elem_of_singleton. }
  rewrite sorted_singleton.
  unfold mbind at 1, M_bind at 1, bind at 1. rewrite Hs.
  rewrite (default_factory_call translated_attrsetter_def translated_attrsetter)
    by done.
  eexists _, _. split; [reflexivity|]. cbn. by rewrite Hw.
Qed.

Lemma factory_without_field_parameter_witness :
  let constant : Getter := λ _ _, Ok (PStr "same everywhere") in
  let factory : PyFunction farg Getter :=
    {| __name__ := "constant_getter";
       parameters := [("name", POSITIONAL_OR_KEYWORD)];
       body := λ _ _, Ok constant |} in
  let self :=
    {| data := data (sample_descriptor ["en"; "de"]);
       _attrgetter := factory;
       _attrsetter := translated_attrsetter_def;
       _getter := None; _setter := None |} in
  ∃ self' wa',
    contribute_to_class self "Article" "title" sample_world = (Ok self', wa')
    ∧ __get__ self' (Some sample_instance) sample_world
      = Ok (inr (PStr "same everywhere"))
    ∧ warnings wa'
      = [{| category := "DeprecationWarning";
            message := "constant_getter has unsupported arguments: field" |}].
Proof.
  intros constant factory self.
  destruct (factory_without_field_parameter self "Article" "title"
              sample_world constant)
    as (self' & wa' & E & Hg & _ & Hw).
  - reflexivity.
  - unfold declares. cbn. by intros [= ]%list_elem_of_singleton.
  - unfold call. rewrite decide_True; [reflexivity|].
    rewrite dom_empty_L. apply set_Forall_empty.
  - exists self', wa'. split; [exact E|]. split; [|exact Hw].
    unfold __get__. rewrite Hg. reflexivity.
Defined.

(** X17.  When the getter factory raises, [contribute_to_class] raises the
    same exception, but only after the loop: the storage fields are already
    registered on the class and the descriptor is installed under the
    logical name. *)
Theorem factory_exception_after_registration (self : TranslatedField)
    (cls name : string) (wa : World) (e : exn) :
  call (_attrgetter self) [AName name]
    (factory_keywords (_attrgetter self) (data self) name wa) = Raise e →
  let r := contribute_to_class self cls name wa in
  r.1 = Raise e
  ∧ contributed (get_class cls r.2)
    = contributed (get_class cls wa) ++ storage_fields (data self) name wa
  ∧ length (storage_fields (data self) name wa)
    = length (languages (data self))
  ∧ descriptors (get_class cls r.2) = descriptors (get_class cls wa) ++ [name].
Proof.
  intros Hcall r.
  destruct (contribute_to_class_state self cls name wa)
    as (_ & _ & Hf & Hd & _).
  split; [|split; [exact Hf|split; [apply length_storage_fields|exact Hd]]].
  unfold r. destruct (contribute_to_class_run self cls name wa) as (w2 & _ & ->).
  unfold mbind at 1, M_bind at 1, bind at 1.
  rewrite _optional_keywords_run. unfold factory_keywords in Hcall.
  by rewrite Hcall.
Qed.

Lemma factory_exception_after_registration_witness :
  let factory : PyFunction farg Getter :=
    {| __name__ := "broken"; parameters := name_field;
       body := λ _ _, Raise (Exception 3) |} in
  let self :=
    {| data := data (sample_descriptor ["en"; "de"]);
       _attrgetter := factory;
       _attrsetter := translated_attrsetter_def;
       _getter := None; _setter := None |} in
  (contribute_to_class self "Article" "title" sample_world).1
  = Raise (Exception 3)
  ∧ (contributed
       (get_class "Article"
          (contribute_to_class self "Article" "title" sample_world).2)).*1
    = ["title_en"; "title_de"].
Proof.
  intros factory self.
  destruct (factory_exception_after_registration self "Article" "title"
              sample_world (Exception 3)) as (Hr & Hf & _).
  - etrans; [apply call_factory_keywords|reflexivity].
    intros _. left. unfold self, factory, name_field. cbn.
    apply list_elem_of_further, list_elem_of_here.
  - split; [exact Hr|]. rewrite Hf. reflexivity.
Defined.

(** ** More on attaching *)

Section AttachMore.

(** The loop touches no other class. *)
Lemma for_contribute_other_class (self : TranslatedFieldData)
    (cls cls' name : string) (items : list (Z * string))
    (fields : list string) (w : World) :
  cls' ≠ cls →
  classes
    (for_ items
       (contribute_storage_field self cls (Field.args (_field self))
          (delete "verbose_name" (Field.kwargs (_field self)))
          (base_label self name) name)
       fields w).2 !! cls'
  = classes w !! cls'.
Proof.
  intros Hne. revert fields w.
  induction items as [|[index language_code] items IH]; intros fields w;
    [done|].
  cbn [for_]. unfold mbind at 1, M_bind at 1, bind at 1.
  set (w1 := set_class cls
      {| contributed := contributed (get_class cls w)
           ++ [storage_field self name w (index, language_code)];
         descriptors := descriptors (get_class cls w) |}
      (set_Field_creation_counter (Field_creation_counter w + 1) w)).
  change (contribute_storage_field self cls (Field.args (_field self))
            (delete "verbose_name" (Field.kwargs (_field self)))
            (base_label self name) name (index, language_code) fields w)
    with (Ok (fields
               ++ [(storage_field self name w (index, language_code)).1]),
          w1).
  cbv beta iota. rewrite IH. unfold w1. cbn. by rewrite lookup_insert_ne.
Qed.

Lemma get_class_same (cls : string) (w w' : World) :
  classes w' !! cls = classes w !! cls → get_class cls w' = get_class cls w.
Proof. unfold get_class. by intros ->. Qed.

Lemma contribute_to_class_other_class (self : TranslatedField)
    (cls cls' name : string) (wa : World) :
  cls' ≠ cls →
  classes (contribute_to_class self cls name wa).2 !! cls'
  = classes wa !! cls'.
Proof.
  intros Hne.
  destruct (for_contribute_storage_field (data self) cls name
              (languages (data self)) 0 [] wa) as (w1 & Hrun & _).
  pose proof (for_contribute_other_class (data self) cls cls' name
                (enumerate 0 (languages (data self))) [] wa Hne) as Hother.
  rewrite Hrun in Hother. cbn [snd] in Hother.
  unfold contribute_to_class, Field.deconstruct. cbv beta iota zeta.
  unfold mbind, M_bind, bind. fold (base_label (data self) name).
  rewrite Hrun.
  set (w2 := set_class cls
                {| contributed := contributed (get_class cls w1);
                   descriptors := descriptors (get_class cls w1) ++ [name] |}
                w1).
  change (setattr_cls cls name w1) with (Ok tt, w2). cbv beta iota.
  assert (classes w2 !! cls' = classes wa !! cls') as H2.
  { unfold w2. cbn. by rewrite lookup_insert_ne. }
  set (kw := {[ "field" := AField _ ]}).
  pose proof (_optional_keywords_frame (_attrgetter self) [AName name] kw w2)
    as (_ & _ & Hk3).
  destruct (_optional_keywords (_attrgetter self) [AName name] kw w2)
    as [[getter|e] w3]; cbn [snd] in Hk3; [|cbn; congruence].
  pose proof (_optional_keywords_frame (_attrsetter self) [AName name] kw w3)
    as (_ & _ & Hk4).
  destruct (_optional_keywords (_attrsetter self) [AName name] kw w3)
    as [[setter|e] w4]; cbn [snd] in Hk4; cbn; congruence.
Qed.

End AttachMore.

(** X18.  The field generated for a language is a call of the prototype's
    class with what [deconstruct()] returns for the prototype: its
    positional arguments, and its keyword arguments with that language's
    overrides laid over them.  Only [verbose_name] differs: the value
    [deconstruct()] returns for it is never passed on as it is; an override
    for the language is kept, and otherwise the lazy label over that value,
    or over the logical name when there is none, is passed. *)
Theorem generated_field_arguments (self : TranslatedField)
    (cls name : string) (wa : World) (i : nat) (language_code : string) :
  languages (data self) !! i = Some language_code →
  let after := (contribute_to_class self cls name wa).2 in
  let prototype := _field (data self) in
  let deconstructed := Field.deconstruct prototype in
  let overrides := default ∅ (_specific (data self) !! language_code) in
  ∃ attr f,
    contributed (get_class cls after)
      !! (length (contributed (get_class cls wa)) + i)%nat = Some (attr, f)
    ∧ Field.class_ f = Field.class_ prototype
    ∧ Field.args f = deconstructed.1
    ∧ (∀ key, key ≠ "verbose_name" →
         Field.kwargs f !! key
         = match overrides !! key with
           | Some v => Some v
           | None => deconstructed.2 !! key
           end)
    ∧ Field.kwargs f !! "verbose_name"
      = match overrides !! "verbose_name" with
        | Some v => Some v
        | None =>
            Some (_verbose_name_maybe_language_code
                    (default (PStr name) (deconstructed.2 !! "verbose_name"))
                    language_code)
        end.
Proof.
  intros Hi after prototype deconstructed overrides.
  change deconstructed.1 with (Field.args prototype).
  change deconstructed.2 with (Field.kwargs prototype).
  change (default (PStr name) (Field.kwargs prototype !! "verbose_name"))
    with (base_label (data self) name).
  destruct (contribute_to_class_state self cls name wa) as (_ & _ & Hf & _).
  pose (item := (Z.of_nat i, language_code)).
  exists (storage_field (data self) name wa item).1,
         (storage_field (data self) name wa item).2.
  split; [|split; [done|split; [done|split]]].
  - unfold after. rewrite Hf, lookup_app_r by lia.
    replace (_ + i - _)%nat with i by lia.
    rewrite storage_fields_lookup, Hi. reflexivity.
  - intros key Hkey. cbn. fold prototype overrides. unfold setdefault.
    assert (∀ m : gmap string pyval,
              (overrides ∪ delete "verbose_name" (Field.kwargs prototype))
                !! key
              = match overrides !! key with
                | Some v => Some v
                | None => Field.kwargs prototype !! key
                end) as Hmerge.
    { intros _. rewrite lookup_union.
      rewrite lookup_delete_ne by done.
      destruct (overrides !! key), (Field.kwargs prototype !! key); done. }
    destruct ((overrides ∪ delete "verbose_name" (Field.kwargs prototype))
                !! "verbose_name");
      [by apply Hmerge|].
    rewrite lookup_insert_ne by done. by apply Hmerge.
  - cbn. fold prototype overrides. unfold setdefault.
    rewrite lookup_union, lookup_delete_eq.
    destruct (overrides !! "verbose_name") eqn:E; cbn.
    + rewrite lookup_union, E, lookup_delete_eq. done.
    + by rewrite lookup_insert_eq.
Qed.

Lemma generated_field_arguments_witness :
  let self :=
    {| data := {| _field := sample_field;
                  _specific := {[ "de" := {[ "max_length" := PObj 2 "300" ]} ]};
                  languages := ["en"; "de"]; creation_counter := 7;
                  fields := None; short_description := None |};
       _attrgetter := translated_attrgetter_def;
       _attrsetter := translated_attrsetter_def;
       _getter := None; _setter := None |} in
  ∃ attr f,
    contributed
      (get_class "Article"
         (contribute_to_class self "Article" "title" sample_world).2)
      !! 1%nat = Some (attr, f)
    ∧ Field.class_ f = "CharField"
    ∧ Field.kwargs f !! "max_length" = Some (PObj 2 "300").
Proof.
  intros self.
  destruct (generated_field_arguments self "Article" "title" sample_world
              1 "de" eq_refl) as (attr & f & Hf & Hc & _ & Hk & _).
  exists attr, f. split; [exact Hf|]. split; [exact Hc|].
  rewrite Hk by discriminate. reflexivity.
Defined.

(** X19.  Attaching a descriptor to a class installs it under the logical
    name on that class and changes no other class, nor the active language,
    the settings or the toggle; the attached descriptor lists one attribute
    name per language and takes the base label as [short_description].
    This holds whether or not a factory raises. *)
Theorem contribute_to_class_frame (self : TranslatedField)
    (cls name : string) (wa : World) :
  let r := contribute_to_class self cls name wa in
  descriptors (get_class cls r.2) = descriptors (get_class cls wa) ++ [name]
  ∧ (∀ cls', cls' ≠ cls → get_class cls' r.2 = get_class cls' wa)
  ∧ get_language r.2 = get_language wa
  ∧ LANGUAGES r.2 = LANGUAGES wa
  ∧ _show_language_code r.2 = _show_language_code wa
  ∧ ∀ self', r.1 = Ok self' →
      (∃ names, fields (data self') = Some names
                ∧ length names = length (languages (data self)))
      ∧ short_description (data self') = Some (base_label (data self) name)
      ∧ languages (data self') = languages (data self)
      ∧ _field (data self') = _field (data self).
Proof.
  intros r.
  destruct (contribute_to_class_state self cls name wa)
    as ((Hl & HL & Hs) & _ & _ & Hd & Hok).
  split; [exact Hd|]. split; [|split; [exact Hl|split; [exact HL|split;
    [exact Hs|]]]].
  - intros cls' Hne. apply get_class_same.
    by apply contribute_to_class_other_class.
  - intros self' E. destruct (Hok self' E) as (Hlangs & _ & Hfields & Hshort).
    split; [|split; [exact Hshort|split; [exact Hlangs|]]].
    + eexists. split; [exact Hfields|].
      by rewrite length_fmap, length_storage_fields.
    + unfold r in E.
      destruct (contribute_to_class_run self cls name wa) as (w2 & _ & Erun).
      rewrite Erun in E. unfold mbind, M_bind, bind in E.
      destruct (_optional_keywords (_attrgetter self) _ _ w2) as [[g|e] w3];
        [|done].
      destruct (_optional_keywords (_attrsetter self) _ _ w3) as [[s|e] w4];
        [|done].
      by injection E as <-.
Qed.

(** X8.  One descriptor attached to two different classes, by two calls
    of [contribute_to_class]: both classes receive the same generated
    fields, with the same names, the same keyword arguments and the same
    counter values, and the second attachment leaves the fields of the
    first class as they are. *)
Theorem attached_to_two_classes (self : TranslatedField)
    (cls1 cls2 name : string) (wa : World) :
  cls1 ≠ cls2 →
  let first := contribute_to_class self cls1 name wa in
  let second := contribute_to_class self cls2 name first.2 in
  ∃ new,
    length new = length (languages (data self))
    ∧ contributed (get_class cls1 second.2)
      = contributed (get_class cls1 wa) ++ new
    ∧ contributed (get_class cls2 second.2)
      = contributed (get_class cls2 wa) ++ new.
Proof.
  intros Hne first second.
  destruct (contribute_to_class_state self cls1 name wa)
    as ((Hl & _) & _ & Hf1 & _).
  destruct (contribute_to_class_state self cls2 name first.2)
    as (_ & _ & Hf2 & _).
  fold first in Hl, Hf1. fold second in Hf2.
  assert (storage_fields (data self) name first.2
          = storage_fields (data self) name wa) as Hsame.
  { unfold storage_fields, storage_field, to_attribute. by rewrite Hl. }
  exists (storage_fields (data self) name wa).
  split; [apply length_storage_fields|]. split.
  - rewrite <- Hf1. f_equal. apply get_class_same.
    by apply contribute_to_class_other_class.
  - rewrite Hf2, Hsame. do 2 f_equal. apply get_class_same.
    by apply contribute_to_class_other_class.
Qed.

Lemma attached_to_two_classes_witness :
  let first :=
    contribute_to_class (sample_descriptor ["en"; "de"]) "Base" "title"
      sample_world in
  let second :=
    contribute_to_class (sample_descriptor ["en"; "de"]) "Article" "title"
      first.2 in
  ∃ new,
    length new = 2%nat
    ∧ contributed (get_class "Base" second.2) = new
    ∧ contributed (get_class "Article" second.2) = new.
Proof.
  exact (attached_to_two_classes (sample_descriptor ["en"; "de"])
           "Base" "Article" "title" sample_world ltac:(discriminate)).
Defined.

(** ** Read-only properties *)

Section Properties.

Lemma foldl_insert_lookup {V} (f : string → V) (names : list string)
    (cls : gmap string V) (key : string) :
  foldl (λ cls name, <[name := f name]> cls) cls names !! key
  = if decide (key ∈ names) then Some (f key) else cls !! key.
Proof.
  revert cls. induction names as [|name names IH]; intros cls; cbn.
  - by rewrite decide_False by apply not_elem_of_nil.
  - rewrite IH. destruct (decide (key ∈ names)) as [Hin|Hnot].
    + by rewrite decide_True by by right.
    + destruct (decide (key = name)) as [->|Hne].
      * rewrite decide_True by by left. apply lookup_insert_eq.
      * rewrite decide_False; [by rewrite lookup_insert_ne|].
        by intros [?|?]%elem_of_cons.
Qed.

Lemma translated_attributes_run (names : list string)
    (attrgetter : string → TranslatedFieldData → Getter) (w : World) :
  ∃ decorator field w',
    translated_attributes names attrgetter w = (Ok decorator, w')
    ∧ languages field = (LANGUAGES w).*1
    ∧ Field_creation_counter w'
      = Field_creation_counter (Field_init "Field" [] ∅ w).2
        + Z.of_nat (length (LANGUAGES w))
    ∧ get_language w' = get_language w
    ∧ classes w' = classes w
    ∧ ∀ cls key,
        decorator cls !! key
        = if decide (key ∈ names) then Some (attrgetter key field)
          else cls !! key.
Proof.
  eexists _, _, _. split; [reflexivity|]. cbn.
  refine (conj _ (conj _ (conj eq_refl (conj eq_refl
            (λ cls key, foldl_insert_lookup _ names cls key))))).
  - reflexivity.
  - by rewrite length_fmap.
Qed.

End Properties.

(** X20.  On a class decorated with [translated_attributes] and the default
    factory, a listed name reads, while a language is active, the instance
    attribute named after the name and that language; an attribute that is
    not listed is read from the instance as before. *)
Theorem translated_attributes_read (names : list string) (w wr : World)
    (cls : PlainClass) (obj : Instance) (name language : string) :
  name ∈ names →
  get_language wr = Some language → language ≠ EmptyString →
  ∃ decorator w',
    translated_attributes names translated_attrgetter w = (Ok decorator, w')
    ∧ property_get (decorator cls) name obj wr
      = getattr obj (normalise name +:+ "_" +:+ normalise language)
    ∧ ∀ other, other ∉ names →
        property_get (decorator cls) other obj wr
        = property_get cls other obj wr.
Proof.
  intros Hin Hl Hne.
  destruct (translated_attributes_run names translated_attrgetter w)
    as (decorator & field & w' & E & _ & _ & _ & _ & Hdec).
  exists decorator, w'. split; [exact E|]. split.
  - unfold property_get. rewrite Hdec, decide_True by done.
    by apply getter_active.
  - intros other Hnot. unfold property_get.
    by rewrite Hdec, decide_False.
Qed.

Lemma translated_attributes_read_witness :
  ∃ decorator w',
    translated_attributes ["title"; "body"] translated_attrgetter sample_world
    = (Ok decorator, w')
    ∧ property_get (decorator ∅) "title" sample_instance
        (activate (Some "de") sample_world)
      = Ok (PStr "hallo").
Proof.
  destruct (translated_attributes_read ["title"; "body"] sample_world
              (activate (Some "de") sample_world) ∅ sample_instance
              "title" "de")
    as (decorator & w' & E & Hread & _).
  - by left.
  - reflexivity.
  - discriminate.
  - exists decorator, w'. split; [exact E|]. rewrite Hread. reflexivity.
Defined.

(** X21.  With no active language such a property falls back to the first
    language of the settings, whatever the class; when the settings list no
    language the read raises [IndexError].  Building the decorator reserves
    one counter value per language of the settings, on top of the one the
    fresh [Field()] takes, although no field is ever registered. *)
Theorem translated_attributes_fallback (names : list string) (w wr : World)
    (cls : PlainClass) (obj : Instance) (name : string) :
  name ∈ names →
  get_language wr = None →
  ∃ decorator w',
    translated_attributes names translated_attrgetter w = (Ok decorator, w')
    ∧ property_get (decorator cls) name obj wr
      = match (LANGUAGES w).*1 with
        | [] => Raise IndexError
        | first :: _ => getattr obj (to_attribute name (Some first) wr)
        end
    ∧ Field_creation_counter w'
      = Field_creation_counter (Field_init "Field" [] ∅ w).2
        + Z.of_nat (length (LANGUAGES w))
    ∧ classes w' = classes w.
Proof.
  intros Hin Hnone.
  destruct (translated_attributes_run names translated_attrgetter w)
    as (decorator & field & w' & E & Hlangs & Hc & _ & Hcls & Hdec).
  exists decorator, w'. split; [exact E|]. split; [|by split].
  unfold property_get. rewrite Hdec, decide_True by done.
  unfold translated_attrgetter. rewrite Hnone, Hlangs. cbn.
  by destruct ((LANGUAGES w).*1).
Qed.

Lemma translated_attributes_fallback_witness :
  ∃ decorator w',
    translated_attributes ["title"] translated_attrgetter sample_world
    = (Ok decorator, w')
    ∧ property_get (decorator ∅) "title" sample_instance
        (activate None sample_world)
      = Ok (PStr "hello")
    ∧ Field_creation_counter w' = 10.
Proof.
  destruct (translated_attributes_fallback ["title"] sample_world
              (activate None sample_world) ∅ sample_instance "title")
    as (decorator & w' & E & Hread & Hc & _).
  - by left.
  - reflexivity.
  - exists decorator, w'. split; [exact E|]. rewrite Hread, Hc.
    split; reflexivity.
Defined.
